(** * Verification of the segmentation trainer ([main.py])

    A shallow embedding of the training script: the command-line
    dispatch, the [TGSDataset] adapter, and the [Model] class with its
    train/test split, training loop, early stopping, checkpointing,
    loss archives, inference thresholding and curve plotting.

    The deep-learning framework (tensors, autograd, the optimizer, the
    network itself, the pickle encoding, the image library) is not part
    of the program; its operations are section variables, typed after
    what each call may read and write. *)

From Stdlib Require Import ZArith QArith Qround Qabs Qpower Lia Lqa Ascii String.
From stdpp Require Import gmap strings list.

Local Open Scope Z_scope.

(** ** The [TGSDataset] class *)

Module Data.

Local Open Scope string_scope.

(** [l[i]] on a Python list: negative indices count from the end;
    [None] is [IndexError]. *)
Definition py_index {A : Type} (l : list A) (i : Z) : option A :=
  let n := Z.of_nat (length l) in
  if (0 <=? i)%Z then l !! Z.to_nat i
  else if (- n <=? i)%Z then l !! Z.to_nat (n + i)
  else None.

Definition ends_with_slash (s : string) : bool :=
  match String.length s with
  | O => false
  | S k => bool_decide (String.get k s = Some "/"%char)
  end.

(** [os.path.join(a, b)] on POSIX paths. *)
Definition path_join (a b : string) : string :=
  if String.prefix "/" b then b
  else if bool_decide (a = "") then b
  else if ends_with_slash a then a +:+ b
  else a +:+ "/" +:+ b.

Definition img_dir : string := "./data/train/images/".
Definition masks_dir : string := "./data/train/masks/".

Section TGS.

(** Pixel data of an image and the tensors a transform makes of it. *)
Context {Pixels Tensor : Type}.

(** The image library on pixel data: conversion between modes and
    resampling from one size to another. [Image.open] reads no more
    than the header of a file; the pixels are decoded by the first
    operation that needs them, here the conversion, which raises on a
    file whose data are truncated or corrupt. [None] stands for any
    exception of the library. *)
Variable convert_pixels : string → string → Pixels → option Pixels.
Variable resample : nat * nat → nat * nat → Pixels → option Pixels.

(** An image as the image library holds it. *)
Record Image := mkImage {
  im_mode : string;
  im_size : nat * nat;
  im_data : Pixels
}.

(** The file system: [os.listdir] and [Image.open] ([None]: the file
    is missing or is not recognised as an image). *)
Variable listdir : string → list string.
Variable Image_open : string → option Image.

Definition Image_convert (mode : string) (im : Image) : option Image :=
  px ← convert_pixels (im_mode im) mode (im_data im);
  Some (mkImage mode (im_size im) px).

Definition Image_resize (size : nat * nat) (im : Image) : option Image :=
  px ← resample (im_size im) size (im_data im);
  Some (mkImage (im_mode im) size px).

(** A transform is any callable; [None] stands for an exception it
    raises. *)
Record TGSDataset := mkDataset {
  img_path : string;
  mask_path : string;
  transform : option (Image → option Tensor);
  all_images : list string
}.

Definition TGSDataset_init (img_path mask_path : string)
    (transform : option (Image → option Tensor)) : TGSDataset :=
  mkDataset img_path mask_path transform (listdir img_path).

Definition len (d : TGSDataset) : nat := length (all_images d).

(** [Image.open(path).convert("L").resize((128, 128))]. *)
Definition open_gray_128 (path : string) : option Image :=
  im ← Image_open path;
  gray ← Image_convert "L" im;
  Image_resize (128, 128)%nat gray.

(** [x = self.transform(x)] under [if self.transform is not None]. *)
Definition apply_transform (d : TGSDataset) (im : Image)
    : option (Image + Tensor) :=
  match transform d with
  | Some f => inr <$> f im
  | None => Some (inl im)
  end.

Definition getitem (d : TGSDataset) (index : Z)
    : option ((Image + Tensor) * (Image + Tensor)) :=
  file_name ← py_index (all_images d) index;
  input_img ← open_gray_128 (path_join (img_path d) file_name);
  mask_img ← open_gray_128 (path_join (mask_path d) file_name);
  input_item ← apply_transform d input_img;
  mask_item ← apply_transform d mask_img;
  Some (input_item, mask_item).

(** [tensor.squeeze(axis=0)]. *)
Variable squeeze : Tensor → Tensor.

(** [x.squeeze(axis=0)] on an item: an image has no such method. *)
Definition item_squeeze (x : Image + Tensor) : option Tensor :=
  match x with
  | inr t => Some (squeeze t)
  | inl _ => None
  end.

(** [np.random.randint(low, high)], with [raw] the generator's output
    before it is reduced to the interval; [None] is the [ValueError]
    for an empty interval. *)
Definition np_random_randint (raw low high : Z) : option Z :=
  if (low <? high)%Z then Some (low + raw mod (high - low))%Z else None.

(** One round of the loop of [Model.plot_sample]: the two images shown. *)
Definition plot_sample_one (d : TGSDataset) (raw : Z) : option (Tensor * Tensor) :=
  match np_random_randint raw 0 (Z.of_nat (len d)) with
  | None => None
  | Some index =>
      match getitem d index with
      | None => None
      | Some (image, mask) =>
          match item_squeeze image with
          | None => None
          | Some top =>
              match item_squeeze mask with
              | None => None
              | Some bottom => Some (top, bottom)
              end
          end
      end
  end.

Fixpoint plot_sample_loop (d : TGSDataset) (raws : list Z)
    : option (list (Tensor * Tensor)) :=
  match raws with
  | [] => Some []
  | raw :: rest =>
      match plot_sample_one d raw with
      | None => None
      | Some shown =>
          match plot_sample_loop d rest with
          | None => None
          | Some more => Some (shown :: more)
          end
      end
  end.

(** [Model.plot_sample] on [self.dataset]; [raw k] is the generator's
    output in round [k]. *)
Definition plot_sample (d : TGSDataset) (raw : nat → Z)
    : option (list (Tensor * Tensor)) :=
  let nb_samples := 4%nat in
  plot_sample_loop d (map raw (seq 0 nb_samples)).

(** The directory part [os.path.join] puts before a relative name. *)
Definition dir_prefix (a : string) : string :=
  if bool_decide (a = "") then ""
  else if ends_with_slash a then a
  else a +:+ "/".

Lemma py_index_valid {A : Type} (l : list A) (i : Z) :
  (- Z.of_nat (length l) ≤ i < Z.of_nat (length l))%Z →
  ∃ x, py_index l i = Some x ∧ x ∈ l.
Proof.
  intros [Hlo Hhi]. unfold py_index.
  destruct (Z.leb_spec 0 i).
  - destruct (lookup_lt_is_Some_2 l (Z.to_nat i)) as [x Hx]; [lia|].
    exists x. split; [done|]. by eapply list_elem_of_lookup_2.
  - destruct (Z.leb_spec (- Z.of_nat (length l)) i); [|lia].
    destruct (lookup_lt_is_Some_2 l (Z.to_nat (Z.of_nat (length l) + i)))
      as [x Hx]; [lia|].
    exists x. split; [done|]. by eapply list_elem_of_lookup_2.
Qed.

Lemma Image_convert_spec mode im im' :
  Image_convert mode im = Some im' →
  im_mode im' = mode ∧ im_size im' = im_size im.
Proof.
  unfold Image_convert. destruct (convert_pixels _ _ _); simpl; [|done].
  by intros [= <-].
Qed.

Lemma Image_resize_spec size im im' :
  Image_resize size im = Some im' →
  im_mode im' = im_mode im ∧ im_size im' = size.
Proof.
  unfold Image_resize. destruct (resample _ _ _); simpl; [|done].
  by intros [= <-].
Qed.

(** What the chain of the three library calls gives when none raises. *)
Lemma open_gray_128_spec path img :
  open_gray_128 path = Some img →
  ∃ im, Image_open path = Some im
        ∧ Image_convert "L" im ≫= Image_resize (128, 128)%nat = Some img
        ∧ im_mode img = "L" ∧ im_size img = (128, 128)%nat.
Proof.
  unfold open_gray_128. destruct (Image_open path) as [im|]; simpl; [|done].
  intros H. exists im. split; [done|]. split; [done|].
  destruct (Image_convert "L" im) as [im1|] eqn:Hc; simpl in H; [|done].
  destruct (Image_convert_spec _ _ _ Hc) as [Hm _].
  destruct (Image_resize_spec _ _ _ H) as [Hm' Hs].
  by rewrite Hm', Hm.
Qed.

(** The item of a file name: what [__getitem__] computes once the
    index is resolved. *)
Lemma getitem_returns (d : TGSDataset) (index : Z) items :
  getitem d index = Some items
  ↔ ∃ file_name input_img mask_img,
      py_index (all_images d) index = Some file_name
      ∧ open_gray_128 (path_join (img_path d) file_name) = Some input_img
      ∧ open_gray_128 (path_join (mask_path d) file_name) = Some mask_img
      ∧ apply_transform d input_img = Some items.1
      ∧ apply_transform d mask_img = Some items.2.
Proof.
  unfold getitem. split.
  - destruct (py_index _ _) as [file_name|]; simpl; [|done].
    destruct (open_gray_128 (path_join (img_path d) file_name))
      as [input_img|] eqn:Hi; simpl; [|done].
    destruct (open_gray_128 (path_join (mask_path d) file_name))
      as [mask_img|] eqn:Hm; simpl; [|done].
    destruct (apply_transform d input_img) as [a|] eqn:Ha; simpl; [|done].
    destruct (apply_transform d mask_img) as [b|] eqn:Hb; simpl; [|done].
    intros [= <-]. exists file_name, input_img, mask_img. by split_and!.
  - intros (file_name & input_img & mask_img & Hn & Hi & Hm & Ha & Hb).
    rewrite Hn. simpl. rewrite Hi. simpl. rewrite Hm. simpl.
    rewrite Ha. simpl. rewrite Hb. simpl. by destruct items.
Qed.

(** C5. [__getitem__] returns, whenever it returns, a pair made
    from the file of the listed name in the image directory and the
    file of the same name in the mask directory, each opened, converted
    to mode ["L"] and resized to 128x128 before the transform, if any,
    is applied. It does return at every valid index (counted from
    either end) of a dataset whose listed files all open, decode and
    resize in both directories and on whose images the transform does
    not raise. The length of a dataset is the number of entries
    [os.listdir] gives for its image directory. *)
Theorem getitem_pairs_image_and_mask (d : TGSDataset) (index : Z) :
  (- Z.of_nat (len d) ≤ index < Z.of_nat (len d))%Z →
  (∀ name, name ∈ all_images d →
     ∃ input_img mask_img,
       open_gray_128 (path_join (img_path d) name) = Some input_img
       ∧ open_gray_128 (path_join (mask_path d) name) = Some mask_img
       ∧ is_Some (apply_transform d input_img)
       ∧ is_Some (apply_transform d mask_img)) →
  (∃ file_name im mk input_img mask_img input_item mask_item,
      py_index (all_images d) index = Some file_name
      ∧ Image_open (path_join (img_path d) file_name) = Some im
      ∧ Image_open (path_join (mask_path d) file_name) = Some mk
      ∧ Image_convert "L" im ≫= Image_resize (128, 128)%nat = Some input_img
      ∧ Image_convert "L" mk ≫= Image_resize (128, 128)%nat = Some mask_img
      ∧ apply_transform d input_img = Some input_item
      ∧ apply_transform d mask_img = Some mask_item
      ∧ getitem d index = Some (input_item, mask_item)
      ∧ im_mode input_img = "L" ∧ im_size input_img = (128, 128)%nat
      ∧ im_mode mask_img = "L" ∧ im_size mask_img = (128, 128)%nat)
  ∧ (∀ items, getitem d index = Some items →
       ∃ file_name im mk input_img mask_img,
         py_index (all_images d) index = Some file_name
         ∧ Image_open (path_join (img_path d) file_name) = Some im
         ∧ Image_open (path_join (mask_path d) file_name) = Some mk
         ∧ Image_convert "L" im ≫= Image_resize (128, 128)%nat = Some input_img
         ∧ Image_convert "L" mk ≫= Image_resize (128, 128)%nat = Some mask_img
         ∧ apply_transform d input_img = Some items.1
         ∧ apply_transform d mask_img = Some items.2
         ∧ im_mode input_img = "L" ∧ im_size input_img = (128, 128)%nat
         ∧ im_mode mask_img = "L" ∧ im_size mask_img = (128, 128)%nat)
  ∧ (∀ ip mp t, len (TGSDataset_init ip mp t) = length (listdir ip)).
Proof.
  intros Hidx Hfiles.
  assert (Hret : ∀ items, getitem d index = Some items →
            ∃ file_name im mk input_img mask_img,
              py_index (all_images d) index = Some file_name
              ∧ Image_open (path_join (img_path d) file_name) = Some im
              ∧ Image_open (path_join (mask_path d) file_name) = Some mk
              ∧ Image_convert "L" im ≫= Image_resize (128, 128)%nat = Some input_img
              ∧ Image_convert "L" mk ≫= Image_resize (128, 128)%nat = Some mask_img
              ∧ apply_transform d input_img = Some items.1
              ∧ apply_transform d mask_img = Some items.2
              ∧ im_mode input_img = "L" ∧ im_size input_img = (128, 128)%nat
              ∧ im_mode mask_img = "L" ∧ im_size mask_img = (128, 128)%nat).
  { intros items (file_name & input_img & mask_img & Hn & Hi & Hm & Ha & Hb)%getitem_returns.
    destruct (open_gray_128_spec _ _ Hi) as (im & Him & Hci & Hmi & Hsi).
    destruct (open_gray_128_spec _ _ Hm) as (mk & Hmk & Hcm & Hmm & Hsm).
    by exists file_name, im, mk, input_img, mask_img. }
  split_and!; [|exact Hret|done].
  destruct (py_index_valid (all_images d) index Hidx) as (file_name & Hname & Hin).
  destruct (Hfiles file_name Hin)
    as (input_img & mask_img & Hi & Hm & [input_item Ha] & [mask_item Hb]).
  assert (Hget : getitem d index = Some (input_item, mask_item)).
  { apply getitem_returns. by exists file_name, input_img, mask_img. }
  destruct (Hret _ Hget)
    as (fn & im & mk & ii & mi & Hn' & Him & Hmk & Hci & Hcm & Ha' & Hb' & Hrest).
  assert (fn = file_name) as -> by congruence.
  assert (ii = input_img) as ->.
  { apply open_gray_128_spec in Hi as (im0 & Him0 & Hci0 & _). congruence. }
  assert (mi = mask_img) as ->.
  { apply open_gray_128_spec in Hm as (mk0 & Hmk0 & Hcm0 & _). congruence. }
  by exists file_name, im, mk, input_img, mask_img, input_item, mask_item.
Qed.

(** ** Errors and edge cases of the dataset *)

Lemma py_index_None {A : Type} (l : list A) (i : Z) :
  py_index l i = None
  ↔ (i < - Z.of_nat (length l) ∨ Z.of_nat (length l) ≤ i)%Z.
Proof.
  unfold py_index. destruct (Z.leb_spec 0 i).
  - rewrite lookup_ge_None. lia.
  - destruct (Z.leb_spec (- Z.of_nat (length l)) i).
    + rewrite lookup_ge_None. lia.
    + split; [lia | done].
Qed.

Lemma py_index_negative {A : Type} (l : list A) (i : Z) :
  (0 ≤ i < Z.of_nat (length l))%Z →
  py_index l (i - Z.of_nat (length l)) = py_index l i.
Proof.
  intros Hi. unfold py_index.
  destruct (Z.leb_spec 0 (i - Z.of_nat (length l))); [lia|].
  destruct (Z.leb_spec (- Z.of_nat (length l)) (i - Z.of_nat (length l))); [|lia].
  destruct (Z.leb_spec 0 i); [|lia].
  f_equal. lia.
Qed.

(** X12. [__getitem__] raises at every index below [-len] or from
    [len] on, whatever the files are, and at a valid index it raises as
    soon as the image or the mask of the listed name fails to open,
    decode or resize, also when the other one is fine; an index counted
    from the end gives the same item, or the same failure, as the one
    counted from the start. *)
Theorem getitem_index_errors (d : TGSDataset) (index : Z) :
  ((index < - Z.of_nat (len d) ∨ Z.of_nat (len d) ≤ index)%Z →
   getitem d index = None)
  ∧ (∀ name, py_index (all_images d) index = Some name →
       open_gray_128 (path_join (img_path d) name) = None
       ∨ open_gray_128 (path_join (mask_path d) name) = None →
       getitem d index = None)
  ∧ ((0 ≤ index < Z.of_nat (len d))%Z →
     getitem d (index - Z.of_nat (len d)) = getitem d index
     ∧ py_index (all_images d) index = all_images d !! Z.to_nat index).
Proof.
  split_and!.
  - intros Hout. unfold getitem.
    by rewrite (proj2 (py_index_None (all_images d) index) Hout).
  - intros name Hname Hbad. unfold getitem. rewrite Hname. simpl.
    destruct Hbad as [->| ->]; [done|].
    by destruct (open_gray_128 (path_join (img_path d) name)).
  - intros Hi. unfold getitem, len in *. rewrite py_index_negative by done.
    split; [done|]. unfold py_index.
    destruct (Z.leb_spec 0 index); [done | lia].
Qed.

Lemma plot_sample_loop_length d raws shown :
  plot_sample_loop d raws = Some shown → length shown = length raws.
Proof.
  revert shown. induction raws as [|raw rest IH]; intros shown; simpl.
  { by intros [= <-]. }
  destruct (plot_sample_one d raw); [|done].
  destruct (plot_sample_loop d rest) as [more|]; [|done].
  intros [= <-]. simpl. f_equal. by apply IH.
Qed.

Lemma getitem_tensors d index items f :
  transform d = Some f →
  getitem d index = Some items →
  ∃ a b, items = (inr a, inr b).
Proof.
  intros Hf (file_name & input_img & mask_img & _ & _ & _ & Ha & Hb)%getitem_returns.
  unfold apply_transform in Ha, Hb. rewrite Hf in Ha, Hb.
  destruct (f input_img) as [a|]; simpl in Ha; [|done].
  destruct (f mask_img) as [b|]; simpl in Hb; [|done].
  exists a, b. destruct items. simpl in *. congruence.
Qed.

Lemma getitem_images d index items :
  transform d = None →
  getitem d index = Some items →
  ∃ a b, items = (inl a, inl b).
Proof.
  intros Hf (file_name & input_img & mask_img & _ & _ & _ & Ha & Hb)%getitem_returns.
  unfold apply_transform in Ha, Hb. rewrite Hf in Ha, Hb.
  exists input_img, mask_img. destruct items. simpl in *. congruence.
Qed.

(** X13. [plot_sample] fails on an empty dataset (no index can be
    drawn) and on a dataset without a transform (an image cannot be
    squeezed). It only ever asks for indices from 0 to [len - 1]: on a
    dataset that is not empty, has a transform, and returns an item at
    each of these indices, it shows four samples, whatever the
    generator gives. *)
Theorem plot_sample_needs_items_and_tensors (d : TGSDataset) (raw : nat → Z) :
  (len d = 0%nat → plot_sample d raw = None)
  ∧ (transform d = None → plot_sample d raw = None)
  ∧ ((0 < len d)%nat → is_Some (transform d) →
     (∀ index, (0 ≤ index < Z.of_nat (len d))%Z → is_Some (getitem d index)) →
     ∃ shown, plot_sample d raw = Some shown ∧ length shown = 4%nat).
Proof.
  split_and!.
  - intros Hlen. unfold plot_sample; simpl.
    unfold plot_sample_one, np_random_randint. by rewrite Hlen.
  - intros Hnone. unfold plot_sample; simpl. unfold plot_sample_one at 1.
    destruct (np_random_randint _ _ _); [|done].
    destruct (getitem d z) as [[image mask]|] eqn:Hget; [|done].
    by destruct (getitem_images _ _ _ Hnone Hget) as (a & b & [= -> ->]).
  - intros Hpos [f Hf] Hitems.
    assert (Hone : ∀ r, is_Some (plot_sample_one d r)).
    { intros r. unfold plot_sample_one, np_random_randint.
      destruct (Z.ltb_spec 0 (Z.of_nat (len d))) as [_|]; [|lia].
      pose proof (Z.mod_pos_bound r (Z.of_nat (len d) - 0) ltac:(lia)).
      destruct (Hitems (0 + r mod (Z.of_nat (len d) - 0))%Z) as [items Hget]; [lia|].
      rewrite Hget.
      destruct (getitem_tensors _ _ _ _ Hf Hget) as (a & b & ->). simpl. eauto. }
    assert (Hloop : ∀ raws, is_Some (plot_sample_loop d raws)).
    { induction raws as [|r rest [more IH]]; simpl; [eauto|].
      destruct (Hone r) as [shown ->]. rewrite IH. eauto. }
    destruct (Hloop (map raw (seq 0 4))) as [shown Hshown].
    exists shown. split; [done|].
    by rewrite (plot_sample_loop_length _ _ _ Hshown).
Qed.

Lemma list_ascii_append (s n : string) :
  list_ascii_of_string (s +:+ n)
  = (list_ascii_of_string s ++ list_ascii_of_string n)%list.
Proof. induction s as [|c s IH]; simpl; [done | by rewrite IH]. Qed.

Lemma append_assoc (a b c : string) : (a +:+ b) +:+ c = a +:+ b +:+ c.
Proof.
  induction a as [|x a IH]; [done|].
  change (String x ((a +:+ b) +:+ c) = String x (a +:+ b +:+ c)).
  by rewrite IH.
Qed.

Lemma append_cancel_r (s s' n : string) : s +:+ n = s' +:+ n → s = s'.
Proof.
  intros H. apply (f_equal list_ascii_of_string) in H.
  rewrite !list_ascii_append in H. apply app_inv_tail in H.
  rewrite <- (string_of_list_ascii_of_string s),
          <- (string_of_list_ascii_of_string s').
  by rewrite H.
Qed.

(** X14. For a file name that does not start with a slash, the path
    string the dataset passes to [Image.open] is the directory string,
    with a slash added unless it is empty or ends with one, followed by
    the name. So the path strings of an image and of its mask are equal
    exactly when the two directory strings are equal up to one trailing
    slash; those of the script's two directories differ. *)
Theorem image_and_mask_paths (a b name : string) :
  String.prefix "/" name = false →
  path_join a name = dir_prefix a +:+ name
  ∧ (path_join a name = path_join b name ↔ dir_prefix a = dir_prefix b)
  ∧ String.eqb (path_join img_dir name) (path_join masks_dir name) = false.
Proof.
  intros Hrel.
  assert (Hjoin : ∀ x, path_join x name = dir_prefix x +:+ name).
  { intros x. unfold path_join, dir_prefix. rewrite Hrel.
    case_bool_decide; [done|]. destruct (ends_with_slash x); [done|].
    by rewrite append_assoc. }
  split_and!; [apply Hjoin | |].
  - rewrite !Hjoin. split; [apply append_cancel_r | by intros ->].
  - apply String.eqb_neq. rewrite !Hjoin. intros H%append_cancel_r.
    discriminate H.
Qed.

End TGS.

(** A directory of two RGB images of 101x101 with their masks, and a
    third image whose file is cut short: it opens, and its data do not
    decode. *)
Definition toy_listdir (p : string) : list string :=
  if bool_decide (p = img_dir) then ["a.png"; "b.png"]
  else if bool_decide (p = "./cut/images/") then ["a.png"; "t.png"]
  else [].

Definition toy_open (p : string) : option (@Image Z) :=
  if bool_decide (p ∈ ["./data/train/images/a.png"; "./data/train/images/b.png";
                       "./cut/images/a.png"])
  then Some (mkImage "RGB" (101, 101)%nat 7%Z)
  else if bool_decide (p ∈ ["./data/train/masks/a.png"; "./data/train/masks/b.png";
                            "./cut/masks/a.png"; "./cut/masks/t.png"])
  then Some (mkImage "1" (101, 101)%nat 1%Z)
  else if bool_decide (p = "./cut/images/t.png")
  then Some (mkImage "RGB" (101, 101)%nat (-1)%Z)
  else None.

(** Data below zero stand for a file that does not decode. *)
Definition toy_convert (from to : string) (px : Z) : option Z :=
  if (px <? 0)%Z then None else Some px.

Definition toy_resample (from to : nat * nat) (px : Z) : option Z := Some px.

Definition toy_to_tensor (im : @Image Z) : option Z := Some (im_data im).

Definition toy_dataset : @TGSDataset Z Z :=
  TGSDataset_init toy_listdir img_dir masks_dir (Some toy_to_tensor).

Definition cut_dataset : @TGSDataset Z Z :=
  TGSDataset_init toy_listdir "./cut/images/" "./cut/masks/" (Some toy_to_tensor).

Example path_join_img : path_join img_dir "a.png" = "./data/train/images/a.png".
Proof. reflexivity. Qed.

Example path_join_no_slash : path_join "data" "a.png" = "data/a.png".
Proof. reflexivity. Qed.

(** The file that is cut short opens, and its item raises. *)
Example getitem_cut_file :
  is_Some (toy_open "./cut/images/t.png")
  ∧ getitem toy_convert toy_resample toy_open cut_dataset 1 = None
  ∧ getitem toy_convert toy_resample toy_open cut_dataset 0 = Some (inr 7, inr 1)%Z
  ∧ plot_sample toy_convert toy_resample toy_open Z.succ cut_dataset
                (λ k, Z.of_nat k) = None.
Proof. vm_compute. eauto. Qed.

(** The last file of the toy directory, by a negative index. *)
Lemma getitem_pairs_image_and_mask_witness :
  ∃ file_name,
    py_index (all_images toy_dataset) (-1) = Some file_name
    ∧ getitem toy_convert toy_resample toy_open toy_dataset (-1)
      = Some (inr 7, inr 1)%Z.
Proof.
  destruct (getitem_pairs_image_and_mask toy_convert toy_resample
              toy_listdir toy_open toy_dataset (-1)) as [H _].
  - change (-2 ≤ -1 < 2)%Z. lia.
  - intros name Hin. change (name ∈ ["a.png"; "b.png"]) in Hin.
    apply elem_of_cons in Hin as [->|Hin]; [vm_compute; eauto 10|].
    apply elem_of_cons in Hin as [->|Hin]; [vm_compute; eauto 10|].
    by apply elem_of_nil in Hin.
  - destruct H as (file_name & im & mk & i1 & i2 & a & b & Hn & _ & _ & _ & _ & _ & _ & Hg & _).
    exists file_name. split; [exact Hn|]. rewrite Hg.
    vm_compute in Hg. congruence.
Defined.

Lemma image_and_mask_paths_witness :
  String.eqb (path_join img_dir "a.png") (path_join masks_dir "a.png") = false.
Proof.
  destruct (image_and_mask_paths img_dir masks_dir "a.png") as (_ & _ & H).
  - reflexivity.
  - exact H.
Defined.

(** Four samples of the toy directory. *)
Example toy_plot_sample :
  plot_sample toy_convert toy_resample toy_open Z.succ toy_dataset
              (λ k, Z.of_nat k * 7)%Z
  = Some [(8, 2); (8, 2); (8, 2); (8, 2)]%Z.
Proof. vm_compute. reflexivity. Qed.

End Data.

(** ** The [Model] class *)

Section Training.

(** Framework data: parameters and buffers of the network (together
    its [state_dict]), accumulated gradients, the optimizer's own
    state, a batch of inputs, a batch of masks, a prediction, a scalar
    loss as [loss.item()] / [np.mean] give it, and pickled bytes. *)
Context {Params Buffers Grads OptState Input Mask Pred Loss Bytes : Type}.

(** [self.net(img)]: reads the parameters; may update buffers (the
    module is never switched to evaluation mode). *)
Variable net_forward : Params → Buffers → Input → Pred * Buffers.
(** [self.loss(y_pred, mask)] followed by [.item()]. *)
Variable bce_loss : Pred → Mask → Loss.
(** [loss.backward()]: accumulates into the gradients. *)
Variable loss_backward : Params → Buffers → Input → Mask → Grads → Grads.
(** [self.optimizer.zero_grad()] and [self.optimizer.step()]. *)
Variable optimizer_zero_grad : Grads → Grads.
Variable optimizer_step : OptState → Params → Grads → OptState * Params.
(** [np.mean] of a list of batch losses (nan on the empty list). *)
Variable np_mean : list Loss → Loss.
(** [<] on losses, and the literal [1e99]. *)
Variable loss_lt : Loss → Loss → bool.
Variable loss_1e99 : Loss.
(** What the [i]-th iteration over each data loader yields. *)
Variable train_dataloader : nat → list (Input * Mask).
Variable test_dataloader : nat → list (Input * Mask).
(** [pickle.dump] / [pickle.load] on a list of losses. *)
Variable pickle_dumps : list Loss → Bytes.
Variable pickle_loads : Bytes → option (list Loss).
(** [np.random.seed(s); np.random.shuffle(l)]. *)
Variable np_random_shuffle : Z → list nat → list nat.
(** [pred.numpy().squeeze(axis=(0, 1))]: the grid of predicted values,
    each a finite float32 number. *)
Variable pred_numpy : Pred → list (list Q).
(** [torch.cuda.is_available()], which decides [device]: the network
    is moved to it in the constructor. *)
Variable cuda_is_available : bool.

Record Net := mkNet {
  params : Params;
  buffers : Buffers;
  grads : Grads
}.

Record Model := mkModel {
  num_epochs : Z;
  batch_size : Z;
  learning_rate : Q;
  early_stopping_epochs : Z;
  net : Net;
  optimizer : OptState;
  train_loss : list Loss;
  test_loss : list Loss;
  save_loss : bool;
  dataset : list string;
  train_indices : list nat;
  test_indices : list nat
}.

(** A file of the working directory: a saved [state_dict] or a pickle. *)
Inductive File :=
| FStateDict (p : Params) (b : Buffers)
| FPickle (b : Bytes).

(** The object and the files it reads and writes. *)
Record World := mkWorld {
  self : Model;
  disk : gmap string File
}.

Definition set_net (m : Model) (n : Net) (o : OptState) : Model :=
  mkModel (num_epochs m) (batch_size m) (learning_rate m)
          (early_stopping_epochs m) n o (train_loss m) (test_loss m)
          (save_loss m) (dataset m) (train_indices m) (test_indices m).

Definition set_train_loss (m : Model) (l : list Loss) : Model :=
  mkModel (num_epochs m) (batch_size m) (learning_rate m)
          (early_stopping_epochs m) (net m) (optimizer m) l (test_loss m)
          (save_loss m) (dataset m) (train_indices m) (test_indices m).

Definition set_test_loss (m : Model) (l : list Loss) : Model :=
  mkModel (num_epochs m) (batch_size m) (learning_rate m)
          (early_stopping_epochs m) (net m) (optimizer m) (train_loss m) l
          (save_loss m) (dataset m) (train_indices m) (test_indices m).

(** *** [Model.__init__]: the 80/20 split *)

Definition test_split : Q := 2 # 10.
Definition random_seed : Z := 42.
Definition shuffle_dataset : bool := true.

(** [int(np.floor(test_split * dataset_size))]. *)
Definition split_point (dataset_size : nat) : nat :=
  Z.to_nat (Qfloor (test_split * inject_Z (Z.of_nat dataset_size))).

Definition shuffled_indices (dataset_size : nat) : list nat :=
  let indices := seq 0 dataset_size in
  if shuffle_dataset then np_random_shuffle random_seed indices else indices.

Definition Model_init (all_images : list string) (unet : Net)
    (adam : OptState) : Model :=
  let dataset_size := length all_images in
  let split := split_point dataset_size in
  let indices := shuffled_indices dataset_size in
  {| num_epochs := 50;
     batch_size := 32;
     learning_rate := 1 # 1000;
     early_stopping_epochs := 10;
     net := unet;
     optimizer := adam;
     train_loss := [];
     test_loss := [];
     save_loss := true;
     dataset := all_images;
     train_indices := drop split indices;
     test_indices := take split indices |}.

(** *** [Model.save_loss_pkl] and [Model.load_loss_pkl] *)

Definition save_loss_pkl (w : World) : World :=
  let d1 := <["train_loss.pkl" := FPickle (pickle_dumps (train_loss (self w)))]> (disk w) in
  let d2 := <["test_loss.pkl" := FPickle (pickle_dumps (test_loss (self w)))]> d1 in
  mkWorld (self w) d2.

Definition read_pickle (d : gmap string File) (name : string) : option (list Loss) :=
  match d !! name with
  | Some (FPickle b) => pickle_loads b
  | _ => None
  end.

(** [None]: one of the files is missing or does not unpickle. *)
Definition load_loss_pkl (w : World) : option World :=
  match read_pickle (disk w) "train_loss.pkl" with
  | None => None
  | Some tr =>
      match read_pickle (disk w) "test_loss.pkl" with
      | None => None
      | Some te =>
          Some (mkWorld (set_test_loss (set_train_loss (self w) tr) te) (disk w))
      end
  end.

(** *** [Model.train] *)

(** One iteration of the training loop body over a batch. *)
Definition train_step (m : Model) (b : Input * Mask) : Model * Loss :=
  let '(img, mask) := b in
  let n := net m in
  let g0 := optimizer_zero_grad (grads n) in
  let '(y_pred, bufs) := net_forward (params n) (buffers n) img in
  let loss := bce_loss y_pred mask in
  let g1 := loss_backward (params n) (buffers n) img mask g0 in
  let '(opt, ps) := optimizer_step (optimizer m) (params n) g1 in
  (set_net m (mkNet ps bufs g1) opt, loss).

(** One iteration of the evaluation loop body (under [no_grad]). *)
Definition test_step (m : Model) (b : Input * Mask) : Model * Loss :=
  let '(img, mask) := b in
  let n := net m in
  let g0 := optimizer_zero_grad (grads n) in
  let '(y_pred, bufs) := net_forward (params n) (buffers n) img in
  let loss := bce_loss y_pred mask in
  (set_net m (mkNet (params n) bufs g0) (optimizer m), loss).

(** A [for] loop over batches that appends each loss to a list. *)
Fixpoint run_batches (step : Model → Input * Mask → Model * Loss)
    (batches : list (Input * Mask)) (m : Model) (losses : list Loss)
    : Model * list Loss :=
  match batches with
  | [] => (m, losses)
  | b :: rest =>
      let '(m', l) := step m b in
      run_batches step rest m' (losses ++ [l])
  end.

Definition train_pass (e : nat) (m : Model) : Model * list Loss :=
  run_batches train_step (train_dataloader e) m [].

Definition test_pass (e : nat) (m : Model) : Model * list Loss :=
  run_batches test_step (test_dataloader e) m [].

(** The local variables of [train] together with the world. *)
Record LoopState := mkLoop {
  lw : World;
  best_loss : Loss;
  early_stopping_counter : Z
}.

(** The model after the training pass of epoch [e], with the average
    train loss appended. *)
Definition after_train_pass (e : nat) (m : Model) : Model :=
  let '(m1, train_loss_epoch) := train_pass e m in
  let avg_train_loss := np_mean train_loss_epoch in
  set_train_loss m1 (train_loss m1 ++ [avg_train_loss]).

(** The model after the evaluation loop of epoch [e], and the
    average test loss, before it is appended. *)
Definition after_test_pass (e : nat) (m : Model) : Model * Loss :=
  let '(m3, test_loss_epoch) := test_pass e (after_train_pass e m) in
  (m3, np_mean test_loss_epoch).

Definition avg_test_loss (e : nat) (m : Model) : Loss :=
  snd (after_test_pass e m).

(** The body of the epoch loop, below the early-stopping check. *)
Definition epoch_body (lp : LoopState) (e : nat) : LoopState :=
  let w := lw lp in
  let '(m3, avg) := after_test_pass e (self w) in
  let m4 := set_test_loss m3 (test_loss m3 ++ [avg]) in
  if loss_lt avg (best_loss lp) then
    let d := <["./model.pt" := FStateDict (params (net m4)) (buffers (net m4))]> (disk w) in
    mkLoop (mkWorld m4 d) avg 0
  else
    mkLoop (mkWorld m4 (disk w)) (best_loss lp) (early_stopping_counter lp + 1).

(** [for epoch in range(...)] with its [break]. *)
Fixpoint train_loop (epochs : list nat) (lp : LoopState) : LoopState :=
  match epochs with
  | [] => lp
  | e :: rest =>
      if early_stopping_counter lp =? early_stopping_epochs (self (lw lp))
      then lp
      else train_loop rest (epoch_body lp e)
  end.

Definition train_start (w : World) : LoopState :=
  mkLoop w loss_1e99 0.

Definition train_end (w : World) : LoopState :=
  train_loop (seq 0 (Z.to_nat (num_epochs (self w)))) (train_start w).

Definition train (w : World) : World :=
  let w' := lw (train_end w) in
  if save_loss (self w') then save_loss_pkl w' else w'.

(** *** Reading a run of [train]

    [after_epochs k lp] is the state once the loop body has run for
    epochs [0 .. k-1]; [epochs_run] counts the epochs [train_loop]
    executes before it leaves the loop. *)

Definition after_epochs (k : nat) (lp : LoopState) : LoopState :=
  fold_left epoch_body (seq 0 k) lp.

Fixpoint epochs_run (epochs : list nat) (lp : LoopState) : nat :=
  match epochs with
  | [] => O
  | e :: rest =>
      if early_stopping_counter lp =? early_stopping_epochs (self (lw lp))
      then O
      else S (epochs_run rest (epoch_body lp e))
  end.

(** Number of epochs a call of [train] executes in world [w]. *)
Definition epochs_trained (w : World) : nat :=
  epochs_run (seq 0 (Z.to_nat (num_epochs (self w)))) (train_start w).

(** Average test loss of epoch [k] (counted from 0) of a run from [w]. *)
Definition test_loss_at (w : World) (k : nat) : Loss :=
  avg_test_loss k (self (lw (after_epochs k (train_start w)))).

(** The [state_dict] of the network. *)
Definition state_dict (m : Model) : File :=
  FStateDict (params (net m)) (buffers (net m)).

(** *** [Model.load_model] *)

Definition load_model (w : World) : option World :=
  match disk w !! "./model.pt" with
  | Some (FStateDict p b) =>
      Some (mkWorld (set_net (self w) (mkNet p b (grads (net (self w))))
                             (optimizer (self w))) (disk w))
  | _ => None
  end.

(** *** [Model.infer_data] *)

(** [floor (log2 |q|)] for a [q] that is not 0: the difference of the
    bit lengths of numerator and denominator, or one less. *)
Definition binade (q : Q) : Z :=
  let e := Z.log2 (Z.abs (Qnum q)) - Z.log2 (Z.pos (Qden q)) in
  if Qle_bool (Qpower (2 # 1) e) (Qabs q) then e else e - 1.

(** The integer nearest to [x], the even one of two at equal distance. *)
Definition round_half_even (x : Q) : Z :=
  let n := Qfloor x in
  match (x - inject_Z n ?= 1 # 2)%Q with
  | Lt => n
  | Gt => n + 1
  | Eq => if Z.even n then n else n + 1
  end.

(** The least magnitude that rounds to a float32 infinity:
    2^128 - 2^103. *)
Definition float32_overflow : Q := inject_Z (2 ^ 128 - 2 ^ 103).

(** A Python float cast to float32, as the number it becomes: the
    nearest float32 value, ties to even, with 24 significant bits from
    2^-126 on and the multiples of 2^-149 below. A magnitude that
    rounds to infinity is left as it is: it compares with every finite
    float32 value as the infinity does. *)
Definition round_float32 (q : Q) : Q :=
  if Qeq_bool q 0 then 0
  else if Qle_bool float32_overflow (Qabs q) then q
  else
    let quantum := Qpower (2 # 1) (Z.max (binade q) (-126) - 23) in
    inject_Z (round_half_even (q / quantum)) * quantum.

(** The last branch of [round_float32]: [q] rounded to the grid of its
    own binade. *)
Definition on_grid (q : Q) : Q :=
  let quantum := Qpower (2 # 1) (Z.max (binade q) (-126) - 23) in
  inject_Z (round_half_even (q / quantum)) * quantum.

(** [p > threshold] for an element [p] of a float32 array and a Python
    float [threshold]: the comparison is made in float32, on the
    threshold cast to it. *)
Definition gt_threshold (p threshold : Q) : bool :=
  negb (Qle_bool p (round_float32 threshold)).

(** [pred > threshold], element by element. *)
Definition binarize (threshold : Q) (pred : list (list Q)) : list (list bool) :=
  map (map (fun p => gt_threshold p threshold)) pred.

(** One row of the figure: input, ground truth, prediction and binary
    prediction. *)
Record InferRow := mkRow {
  row_img : Input;
  row_mask : Mask;
  row_pred : list (list Q);
  row_pred_bin : list (list bool)
}.

Definition default_threshold : Q := 1 # 2.

(** Row [k]: the first batch of a fresh iteration over the test
    loader ([None] when the loader is empty). The batch stays on the
    CPU, where the loader made it: with the network on a CUDA device
    the forward pass raises. *)
Definition infer_row (threshold : Q) (m : Model) (k : nat)
    : option (Model * InferRow) :=
  match test_dataloader k with
  | [] => None
  | (img_batch, mask_batch) :: _ =>
      if cuda_is_available then None
      else
        let n := net m in
        let '(pred, bufs) := net_forward (params n) (buffers n) img_batch in
        let pred := pred_numpy pred in
        let pred_bin := binarize threshold pred in
        Some (set_net m (mkNet (params n) bufs (grads n)) (optimizer m),
              mkRow img_batch mask_batch pred pred_bin)
  end.

Fixpoint infer_rows (threshold : Q) (ks : list nat) (m : Model)
    : option (Model * list InferRow) :=
  match ks with
  | [] => Some (m, [])
  | k :: rest =>
      match infer_row threshold m k with
      | None => None
      | Some (m', r) =>
          match infer_rows threshold rest m' with
          | None => None
          | Some (m'', rs) => Some (m'', r :: rs)
          end
      end
  end.

(** [threshold = None]: the argument is left out. *)
Definition infer_data (threshold : option Q) (m : Model)
    : option (Model * list InferRow) :=
  infer_rows (default default_threshold threshold)
             (seq 0 6) m.

(** *** [Model.plot_curves] *)

(** [range(a, b)]. *)
Definition range (a b : Z) : list Z :=
  map (fun i => a + Z.of_nat i) (seq 0 (Z.to_nat (b - a))).

(** [plt.plot(x, y)]: raises when the two sequences differ in length. *)
Definition plt_plot {A : Type} (x : list Z) (y : list A) : option unit :=
  if decide (length x = length y) then Some tt else None.

Definition plot_curves (m : Model) : option unit :=
  let x := range 1 (num_epochs m + 1) in
  match plt_plot x (train_loss m) with
  | None => None
  | Some _ => plt_plot x (test_loss m)
  end.

(** *** The branches of [__main__] *)

(** [min(l)] on a list of losses: the first element that no later one
    is below; [None] is the [ValueError] on the empty list. *)
Definition py_min (l : list Loss) : option Loss :=
  match l with
  | [] => None
  | x :: rest =>
      Some (fold_left (λ best y, if loss_lt y best then y else best) rest x)
  end.

(** [--infer]: [load_model] then [infer_data()]. *)
Definition infer_mode (w : World) : option (World * list InferRow) :=
  match load_model w with
  | None => None
  | Some w1 =>
      match infer_data None (self w1) with
      | None => None
      | Some (m, rows) => Some (mkWorld m (disk w1), rows)
      end
  end.

(** [--curves]: [load_loss_pkl], the printed [min(model.test_loss)],
    then [plot_curves]. *)
Definition curves_mode (w : World) : option (World * Loss) :=
  match load_loss_pkl w with
  | None => None
  | Some w1 =>
      match py_min (test_loss (self w1)) with
      | None => None
      | Some lowest =>
          match plot_curves (self w1) with
          | None => None
          | Some _ => Some (w1, lowest)
          end
      end
  end.

(** *** Auxiliary notions for the statements *)

(** The buffers of the network when [infer_data] computes row [k]:
    each earlier row has run one forward pass. *)
Fixpoint buffers_at_row (m : Model) (k : nat) : Buffers :=
  match k with
  | O => buffers (net m)
  | S k' =>
      match test_dataloader k' with
      | (img_batch, _) :: _ =>
          snd (net_forward (params (net m)) (buffers_at_row m k') img_batch)
      | [] => buffers_at_row m k'
      end
  end.

(** Everything of the model but the network and the optimizer. *)
Definition settings (m : Model) :=
  (num_epochs m, batch_size m, learning_rate m, early_stopping_epochs m,
   save_loss m, dataset m, train_indices m, test_indices m).

(** The model an epoch leaves behind. *)
Definition epoch_model (e : nat) (m : Model) : Model :=
  let m3 := fst (after_test_pass e m) in
  set_test_loss m3 (test_loss m3 ++ [avg_test_loss e m]).

(** [<] as a strict weak order: what it is on floats that are not nan. *)
Record StrictWeakOrder (lt : Loss → Loss → bool) : Prop := {
  lt_irrefl : ∀ a, lt a a = false;
  lt_trans : ∀ a b c, lt a b = true → lt b c = true → lt a c = true;
  lt_negtrans : ∀ a b c, lt a b = false → lt b c = false → lt a c = false
}.

(** The exact value of the double-precision literal [0.2]; see
    [split_point_binary64]. *)
Definition test_split_binary64 : Q := 3602879701896397 # 18014398509481984.

(** ** Frame lemmas for the batch loops *)

(** A projection of the model that a batch step leaves alone is left
    alone by the whole loop. *)
Lemma run_batches_frame {A : Type} (proj : Model → A)
    (step : Model → Input * Mask → Model * Loss) :
  (∀ m b, proj (fst (step m b)) = proj m) →
  ∀ batches m losses, proj (fst (run_batches step batches m losses)) = proj m.
Proof.
  intros Hstep batches.
  induction batches as [|b rest IH]; intros m losses; simpl; [done|].
  specialize (Hstep m b). destruct (step m b) as [m' l]; simpl in Hstep.
  by rewrite IH.
Qed.

Lemma run_batches_losses (step : Model → Input * Mask → Model * Loss) :
  ∀ batches m losses,
    length (snd (run_batches step batches m losses))
    = (length losses + length batches)%nat.
Proof.
  intros batches.
  induction batches as [|b rest IH]; intros m losses; simpl; [lia|].
  destruct (step m b) as [m' l].
  rewrite IH, length_app; simpl; lia.
Qed.

Ltac step_frame :=
  intros m [img mask]; unfold train_step, test_step; simpl;
  repeat match goal with
         | |- context [let '(_, _) := ?x in _] => destruct x
         end;
  reflexivity.

Lemma train_step_frame {A : Type}
    (f : Z → Z → Q → Z → list Loss → list Loss → bool → list string →
         list nat → list nat → A) m b :
  (let m' := fst (train_step m b) in
   f (num_epochs m') (batch_size m') (learning_rate m')
     (early_stopping_epochs m') (train_loss m') (test_loss m')
     (save_loss m') (dataset m') (train_indices m') (test_indices m'))
  = f (num_epochs m) (batch_size m) (learning_rate m)
      (early_stopping_epochs m) (train_loss m) (test_loss m)
      (save_loss m) (dataset m) (train_indices m) (test_indices m).
Proof. revert m b. step_frame. Qed.

Lemma test_step_frame {A : Type}
    (f : Z → Z → Q → Z → list Loss → list Loss → bool → list string →
         list nat → list nat → Params → OptState → A) m b :
  (let m' := fst (test_step m b) in
   f (num_epochs m') (batch_size m') (learning_rate m')
     (early_stopping_epochs m') (train_loss m') (test_loss m')
     (save_loss m') (dataset m') (train_indices m') (test_indices m')
     (params (net m')) (optimizer m'))
  = f (num_epochs m) (batch_size m) (learning_rate m)
      (early_stopping_epochs m) (train_loss m) (test_loss m)
      (save_loss m) (dataset m) (train_indices m) (test_indices m)
      (params (net m)) (optimizer m).
Proof. revert m b. step_frame. Qed.

Lemma train_pass_settings e m :
  settings (fst (train_pass e m)) = settings m
  ∧ train_loss (fst (train_pass e m)) = train_loss m
  ∧ test_loss (fst (train_pass e m)) = test_loss m.
Proof.
  unfold train_pass. split_and!.
  - apply (run_batches_frame settings). intros m0 b.
    apply (train_step_frame (λ a b c d _ _ e f g h, (a, b, c, d, e, f, g, h))).
  - apply (run_batches_frame train_loss). intros m0 b.
    apply (train_step_frame (λ _ _ _ _ x _ _ _ _ _, x)).
  - apply (run_batches_frame test_loss). intros m0 b.
    apply (train_step_frame (λ _ _ _ _ _ x _ _ _ _, x)).
Qed.

Lemma test_pass_settings e m :
  settings (fst (test_pass e m)) = settings m
  ∧ train_loss (fst (test_pass e m)) = train_loss m
  ∧ test_loss (fst (test_pass e m)) = test_loss m.
Proof.
  unfold test_pass. split_and!.
  - apply (run_batches_frame settings). intros m0 b.
    apply (test_step_frame (λ a b c d _ _ e f g h _ _, (a, b, c, d, e, f, g, h))).
  - apply (run_batches_frame train_loss). intros m0 b.
    apply (test_step_frame (λ _ _ _ _ x _ _ _ _ _ _ _, x)).
  - apply (run_batches_frame test_loss). intros m0 b.
    apply (test_step_frame (λ _ _ _ _ _ x _ _ _ _ _ _, x)).
Qed.

Lemma test_pass_weights e m :
  params (net (fst (test_pass e m))) = params (net m)
  ∧ optimizer (fst (test_pass e m)) = optimizer m.
Proof.
  unfold test_pass. split.
  - apply (run_batches_frame (λ m, params (net m))). intros m0 b.
    apply (test_step_frame (λ _ _ _ _ _ _ _ _ _ _ x _, x)).
  - apply (run_batches_frame optimizer). intros m0 b.
    apply (test_step_frame (λ _ _ _ _ _ _ _ _ _ _ _ x, x)).
Qed.

(** ** One epoch *)

Lemma after_train_pass_spec e m :
  settings (after_train_pass e m) = settings m
  ∧ train_loss (after_train_pass e m)
    = train_loss m ++ [np_mean (snd (train_pass e m))]
  ∧ test_loss (after_train_pass e m) = test_loss m
  ∧ net (after_train_pass e m) = net (fst (train_pass e m))
  ∧ optimizer (after_train_pass e m) = optimizer (fst (train_pass e m)).
Proof.
  unfold after_train_pass.
  destruct (train_pass_settings e m) as (Hs & Htr & Hte).
  destruct (train_pass e m) as [m1 ls]; simpl in *.
  by rewrite <- Hs, <- Htr, <- Hte.
Qed.

Lemma after_test_pass_spec e m :
  let m3 := fst (after_test_pass e m) in
  settings m3 = settings m
  ∧ train_loss m3 = train_loss m ++ [np_mean (snd (train_pass e m))]
  ∧ test_loss m3 = test_loss m
  ∧ params (net m3) = params (net (fst (train_pass e m)))
  ∧ optimizer m3 = optimizer (fst (train_pass e m)).
Proof.
  unfold after_test_pass.
  destruct (test_pass_settings e (after_train_pass e m)) as (Hs & Htr & Hte).
  destruct (test_pass_weights e (after_train_pass e m)) as (Hp & Ho).
  destruct (after_train_pass_spec e m) as (Hs' & Htr' & Hte' & Hn' & Ho').
  destruct (test_pass e (after_train_pass e m)) as [m3 ls]; simpl in *.
  rewrite Hs, Htr, Hte, Hp, Ho. by rewrite Hn'.
Qed.

Lemma epoch_body_improved lp e :
  loss_lt (avg_test_loss e (self (lw lp))) (best_loss lp) = true →
  epoch_body lp e =
    let m4 := epoch_model e (self (lw lp)) in
    mkLoop (mkWorld m4 (<["./model.pt" := state_dict m4]> (disk (lw lp))))
           (avg_test_loss e (self (lw lp))) 0.
Proof.
  unfold epoch_body, epoch_model, avg_test_loss, state_dict.
  destruct (after_test_pass e (self (lw lp))) as [m3 avg]; simpl.
  by intros ->.
Qed.

Lemma epoch_body_stalled lp e :
  loss_lt (avg_test_loss e (self (lw lp))) (best_loss lp) = false →
  epoch_body lp e =
    mkLoop (mkWorld (epoch_model e (self (lw lp))) (disk (lw lp)))
           (best_loss lp) (early_stopping_counter lp + 1).
Proof.
  unfold epoch_body, epoch_model, avg_test_loss.
  destruct (after_test_pass e (self (lw lp))) as [m3 avg]; simpl.
  by intros ->.
Qed.

Lemma epoch_body_self lp e :
  self (lw (epoch_body lp e)) = epoch_model e (self (lw lp)).
Proof.
  destruct (loss_lt (avg_test_loss e (self (lw lp))) (best_loss lp)) eqn:H.
  - by rewrite epoch_body_improved.
  - by rewrite epoch_body_stalled.
Qed.

Lemma epoch_model_spec e m :
  settings (epoch_model e m) = settings m
  ∧ train_loss (epoch_model e m)
    = train_loss m ++ [np_mean (snd (train_pass e m))]
  ∧ test_loss (epoch_model e m) = test_loss m ++ [avg_test_loss e m]
  ∧ params (net (epoch_model e m)) = params (net (fst (train_pass e m))).
Proof.
  destruct (after_test_pass_spec e m) as (Hs & Htr & Hte & Hp & Ho).
  unfold epoch_model; simpl in *. by rewrite <- Hte.
Qed.

Lemma epoch_body_patience lp e :
  early_stopping_epochs (self (lw (epoch_body lp e)))
  = early_stopping_epochs (self (lw lp)).
Proof.
  rewrite epoch_body_self.
  destruct (epoch_model_spec e (self (lw lp))) as (Hs & _).
  unfold settings in Hs. by simplify_eq.
Qed.

(** ** The epoch loop *)

Lemma after_epochs_S k lp :
  after_epochs (S k) lp = epoch_body (after_epochs k lp) k.
Proof. unfold after_epochs. by rewrite seq_S, fold_left_app. Qed.

Lemma train_loop_run n :
  ∀ s lp, train_loop (seq s n) lp
          = fold_left epoch_body (seq s (epochs_run (seq s n) lp)) lp.
Proof.
  induction n as [|n IH]; intros s lp; simpl; [done|].
  destruct (Z.eqb_spec (early_stopping_counter lp)
              (early_stopping_epochs (self (lw lp)))); simpl; [done|].
  apply IH.
Qed.

Lemma epochs_run_spec n :
  ∀ s lp,
    let N := epochs_run (seq s n) lp in
    let patience := early_stopping_epochs (self (lw lp)) in
    (N ≤ n)%nat
    ∧ (∀ k, (k < N)%nat →
         early_stopping_counter (fold_left epoch_body (seq s k) lp) ≠ patience)
    ∧ ((N < n)%nat →
         early_stopping_counter (fold_left epoch_body (seq s N) lp) = patience).
Proof.
  induction n as [|n IH]; intros s lp; simpl.
  { split_and!; [lia | intros; lia | lia]. }
  destruct (Z.eqb_spec (early_stopping_counter lp)
              (early_stopping_epochs (self (lw lp)))) as [Heq|Hne]; simpl.
  { split_and!; [lia | intros; lia | done]. }
  destruct (IH (S s) (epoch_body lp s)) as (Hle & Hlt & Hstop).
  rewrite epoch_body_patience in Hlt, Hstop.
  split_and!.
  - lia.
  - intros [|k] Hk; simpl; [done|]. apply Hlt. lia.
  - intros HN. apply Hstop. lia.
Qed.

Lemma after_epochs_patience k lp :
  early_stopping_epochs (self (lw (after_epochs k lp)))
  = early_stopping_epochs (self (lw lp)).
Proof.
  induction k as [|k IH]; [done|].
  by rewrite after_epochs_S, epoch_body_patience.
Qed.

Lemma train_end_after w :
  train_end w = after_epochs (epochs_trained w) (train_start w).
Proof. unfold train_end, epochs_trained, after_epochs. apply train_loop_run. Qed.

Lemma after_epochs_settings k lp :
  settings (self (lw (after_epochs k lp))) = settings (self (lw lp)).
Proof.
  induction k as [|k IH]; [done|].
  rewrite after_epochs_S, epoch_body_self.
  destruct (epoch_model_spec k (self (lw (after_epochs k lp)))) as (Hs & _).
  by rewrite Hs.
Qed.

Lemma after_epochs_lengths k lp :
  length (train_loss (self (lw (after_epochs k lp))))
  = (length (train_loss (self (lw lp))) + k)%nat
  ∧ length (test_loss (self (lw (after_epochs k lp))))
    = (length (test_loss (self (lw lp))) + k)%nat.
Proof.
  induction k as [|k [IH1 IH2]]; [unfold after_epochs; simpl; lia|].
  rewrite after_epochs_S, epoch_body_self.
  destruct (epoch_model_spec k (self (lw (after_epochs k lp))))
    as (_ & Htr & Hte & _).
  rewrite Htr, Hte, !length_app, IH1, IH2; simpl; lia.
Qed.

Lemma train_self w : self (train w) = self (lw (train_end w)).
Proof. unfold train. by destruct (save_loss _). Qed.

Lemma train_end_save_loss w :
  save_loss (self (lw (train_end w))) = save_loss (self w).
Proof.
  rewrite train_end_after.
  pose proof (after_epochs_settings (epochs_trained w) (train_start w)) as Hs.
  unfold settings in Hs. by simplify_eq.
Qed.

Lemma train_lengths w :
  length (train_loss (self (train w)))
  = (length (train_loss (self w)) + epochs_trained w)%nat
  ∧ length (test_loss (self (train w)))
    = (length (test_loss (self w)) + epochs_trained w)%nat.
Proof.
  rewrite train_self, train_end_after.
  apply (after_epochs_lengths (epochs_trained w) (train_start w)).
Qed.

Lemma train_end_stopped w :
  (epochs_trained w < Z.to_nat (num_epochs (self w)))%nat →
  early_stopping_counter (train_end w) = early_stopping_epochs (self w).
Proof.
  intros HN. rewrite train_end_after.
  by apply (epochs_run_spec (Z.to_nat (num_epochs (self w))) 0%nat (train_start w)).
Qed.

(** ** Early stopping *)

(** C1. The early-stopping counter goes up by one at the end of every
    epoch whose average test loss is not below the best test loss so
    far and goes back to zero at every epoch that improves on it (the
    best loss then becomes that epoch's); it starts at zero. A call of
    [train] runs the loop body for exactly [epochs_trained w] epochs:
    no epoch is entered with the counter at the patience threshold
    [early_stopping_epochs], the loop is left before [num_epochs]
    epochs only with the counter at the threshold, and once the
    counter is at the threshold after [k] epochs no further epoch
    runs. The threshold set by the constructor is 10. *)
Theorem early_stopping_halts_at_patience (w : World) :
  let lp0 := train_start w in
  let n := Z.to_nat (num_epochs (self w)) in
  let patience := early_stopping_epochs (self w) in
  let N := epochs_trained w in
  (∀ lp e,
      early_stopping_counter (epoch_body lp e)
      = (if loss_lt (avg_test_loss e (self (lw lp))) (best_loss lp)
         then 0 else early_stopping_counter lp + 1)
      ∧ best_loss (epoch_body lp e)
        = (if loss_lt (avg_test_loss e (self (lw lp))) (best_loss lp)
           then avg_test_loss e (self (lw lp)) else best_loss lp))
  ∧ early_stopping_counter lp0 = 0
  ∧ train_end w = after_epochs N lp0
  ∧ (N ≤ n)%nat
  ∧ (∀ k, (k < N)%nat →
       early_stopping_counter (after_epochs k lp0) ≠ patience)
  ∧ ((N < n)%nat → early_stopping_counter (train_end w) = patience)
  ∧ (∀ k, (k ≤ n)%nat →
       early_stopping_counter (after_epochs k lp0) = patience → (N ≤ k)%nat)
  ∧ length (test_loss (self (train w)))
    = (length (test_loss (self w)) + N)%nat
  ∧ (∀ imgs unet adam,
       early_stopping_epochs (Model_init imgs unet adam) = 10).
Proof.
  intros lp0 n patience N.
  destruct (epochs_run_spec n 0%nat lp0) as (Hle & Hlt & Hstop).
  fold (epochs_trained w) in Hle, Hlt, Hstop. fold N in Hle, Hlt, Hstop.
  assert (Hlt' : ∀ k, (k < N)%nat →
            early_stopping_counter (after_epochs k lp0) ≠ patience)
    by exact Hlt.
  split_and!; try done.
  - intros lp e.
    destruct (loss_lt (avg_test_loss e (self (lw lp))) (best_loss lp)) eqn:H.
    + by rewrite epoch_body_improved.
    + by rewrite epoch_body_stalled.
  - apply train_end_after.
  - apply train_end_stopped.
  - intros k Hk Hc. destruct (decide (N ≤ k)%nat) as [|Hn]; [done|].
    exfalso. apply (Hlt' k); [lia | done].
  - apply train_lengths.
Qed.

(** ** Loss history *)

(** C7. Every epoch appends exactly one average train loss to
    [train_loss] and one average test loss to [test_loss], so after
    [k] epochs each list is [k] longer; after [train] both are longer
    by the number of epochs run, hence of that very length when they
    start empty, as the constructor leaves them. With [save_loss] set,
    [train] ends by writing both lists to their pickle files; without
    it, no archive is written. *)
Theorem loss_lists_grow_together (w : World) :
  let N := epochs_trained w in
  (∀ lp e,
      train_loss (self (lw (epoch_body lp e)))
      = train_loss (self (lw lp)) ++ [np_mean (snd (train_pass e (self (lw lp))))]
      ∧ test_loss (self (lw (epoch_body lp e)))
        = test_loss (self (lw lp)) ++ [avg_test_loss e (self (lw lp))])
  ∧ (∀ k,
       length (train_loss (self (lw (after_epochs k (train_start w)))))
       = (length (train_loss (self w)) + k)%nat
       ∧ length (test_loss (self (lw (after_epochs k (train_start w)))))
         = (length (test_loss (self w)) + k)%nat)
  ∧ length (train_loss (self (train w))) = (length (train_loss (self w)) + N)%nat
  ∧ length (test_loss (self (train w))) = (length (test_loss (self w)) + N)%nat
  ∧ (train_loss (self w) = [] → test_loss (self w) = [] →
     length (train_loss (self (train w))) = N
     ∧ length (test_loss (self (train w))) = N)
  ∧ (∀ imgs unet adam,
       train_loss (Model_init imgs unet adam) = []
       ∧ test_loss (Model_init imgs unet adam) = []
       ∧ save_loss (Model_init imgs unet adam) = true)
  ∧ (save_loss (self w) = true →
     disk (train w) !! "train_loss.pkl"
     = Some (FPickle (pickle_dumps (train_loss (self (train w)))))
     ∧ disk (train w) !! "test_loss.pkl"
       = Some (FPickle (pickle_dumps (test_loss (self (train w))))))
  ∧ (save_loss (self w) = false → disk (train w) = disk (lw (train_end w))).
Proof.
  intros N.
  assert (Hlen : length (train_loss (self (train w)))
                 = (length (train_loss (self w)) + N)%nat
                 ∧ length (test_loss (self (train w)))
                   = (length (test_loss (self w)) + N)%nat).
  { apply train_lengths. }
  destruct Hlen as [Htr Hte].
  split_and!; try done.
  - intros lp e. rewrite epoch_body_self.
    by destruct (epoch_model_spec e (self (lw lp))) as (_ & -> & -> & _).
  - intros k. apply (after_epochs_lengths k (train_start w)).
  - intros E1 E2. rewrite Htr, Hte, E1, E2. done.
  - intros Hs. rewrite train_self. unfold train.
    rewrite train_end_save_loss, Hs. unfold save_loss_pkl; simpl.
    split; [by rewrite lookup_insert_ne, lookup_insert_eq
           | by rewrite lookup_insert_eq].
  - intros Hs. unfold train. by rewrite train_end_save_loss, Hs.
Qed.

(** ** The evaluation pass *)

(** C8. The evaluation loop of an epoch leaves the parameters of the
    network and the optimizer as the training loop of that epoch
    left them: no evaluation step and no evaluation pass changes
    them, and the parameters at the end of an epoch (the ones a
    checkpoint of that epoch holds) are those after the last training
    step of the epoch. *)
Theorem test_pass_keeps_weights (e : nat) (m : Model) :
  (∀ b, params (net (fst (test_step m b))) = params (net m)
        ∧ optimizer (fst (test_step m b)) = optimizer m)
  ∧ params (net (fst (test_pass e m))) = params (net m)
  ∧ optimizer (fst (test_pass e m)) = optimizer m
  ∧ params (net (fst (after_test_pass e m)))
    = params (net (fst (train_pass e m)))
  ∧ (∀ lp, params (net (self (lw (epoch_body lp e))))
           = params (net (fst (train_pass e (self (lw lp)))))).
Proof.
  destruct (test_pass_weights e m) as [Hp Ho].
  destruct (after_test_pass_spec e m) as (_ & _ & _ & Hp' & _).
  split_and!; try done.
  - intros b. split.
    + apply (test_step_frame (λ _ _ _ _ _ _ _ _ _ _ x _, x)).
    + apply (test_step_frame (λ _ _ _ _ _ _ _ _ _ _ _ x, x)).
  - intros lp. rewrite epoch_body_self.
    by destruct (epoch_model_spec e (self (lw lp))) as (_ & _ & _ & ->).
Qed.

(** ** Checkpoints *)

Lemma epoch_body_disk_other lp e name :
  name ≠ "./model.pt" →
  disk (lw (epoch_body lp e)) !! name = disk (lw lp) !! name.
Proof.
  intros Hne.
  destruct (loss_lt (avg_test_loss e (self (lw lp))) (best_loss lp)) eqn:H.
  - rewrite epoch_body_improved by done. simpl. by rewrite lookup_insert_ne.
  - by rewrite epoch_body_stalled.
Qed.

Lemma after_epochs_disk_other k lp name :
  name ≠ "./model.pt" →
  disk (lw (after_epochs k lp)) !! name = disk (lw lp) !! name.
Proof.
  intros Hne. induction k as [|k IH]; [done|].
  by rewrite after_epochs_S, epoch_body_disk_other.
Qed.

Lemma train_disk_checkpoint w :
  disk (train w) !! "./model.pt" = disk (lw (train_end w)) !! "./model.pt".
Proof.
  unfold train. destruct (save_loss _); [|done].
  unfold save_loss_pkl; simpl. by rewrite !lookup_insert_ne.
Qed.

Lemma train_disk_other w name :
  name ≠ "./model.pt" → name ≠ "train_loss.pkl" → name ≠ "test_loss.pkl" →
  disk (train w) !! name = disk w !! name.
Proof.
  intros H1 H2 H3.
  assert (disk (train w) !! name = disk (lw (train_end w)) !! name) as ->.
  { unfold train. destruct (save_loss _); [|done].
    unfold save_loss_pkl; simpl. by rewrite !lookup_insert_ne. }
  rewrite train_end_after. by rewrite after_epochs_disk_other.
Qed.

Section BestLoss.
Context (w : World) (Hord : StrictWeakOrder loss_lt).

Let lp (k : nat) : LoopState := after_epochs k (train_start w).

Lemma best_loss_step k :
  best_loss (lp (S k))
  = (if loss_lt (test_loss_at w k) (best_loss (lp k))
     then test_loss_at w k else best_loss (lp k)).
Proof.
  unfold lp, test_loss_at. rewrite after_epochs_S.
  destruct (loss_lt _ _) eqn:H.
  - by rewrite epoch_body_improved.
  - by rewrite epoch_body_stalled.
Qed.

(** The running best is the initial [1e99] or the loss of an earlier
    epoch, and no earlier epoch is strictly below it. *)
Lemma best_loss_running_min k :
  (best_loss (lp k) = loss_1e99
   ∨ ∃ j, (j < k)%nat ∧ best_loss (lp k) = test_loss_at w j)
  ∧ (∀ j, (j < k)%nat → loss_lt (test_loss_at w j) (best_loss (lp k)) = false).
Proof.
  induction k as [|k [IHa IHb]].
  { split; [by left | intros; lia]. }
  rewrite best_loss_step.
  destruct (loss_lt (test_loss_at w k) (best_loss (lp k))) eqn:Himp.
  - split; [right; exists k; split; [lia | done]|].
    intros j Hj. destruct (decide (j = k)) as [->|Hne].
    + apply (lt_irrefl _ Hord).
    + destruct (loss_lt (test_loss_at w j) (test_loss_at w k)) eqn:Hjk; [|done].
      rewrite <- (IHb j) by lia. symmetry.
      by apply (lt_trans _ Hord) with (test_loss_at w k).
  - split.
    + destruct IHa as [?|(j & ? & ?)]; [by left | right; exists j; split; [lia | done]].
    + intros j Hj. destruct (decide (j = k)) as [->|Hne]; [done|].
      apply IHb. lia.
Qed.

(** An epoch improves on the running best exactly when its loss is
    below the initial [1e99] and below the loss of every earlier
    epoch. *)
Lemma improves_iff k :
  loss_lt (test_loss_at w k) (best_loss (lp k)) = true
  ↔ loss_lt (test_loss_at w k) loss_1e99 = true
    ∧ ∀ j, (j < k)%nat → loss_lt (test_loss_at w k) (test_loss_at w j) = true.
Proof.
  destruct (best_loss_running_min k) as [Ha Hb]. split.
  - intros Himp. split.
    + destruct (loss_lt (test_loss_at w k) loss_1e99) eqn:H1; [done|].
      assert (Hinit : best_loss (lp 0) = loss_1e99) by done.
      (* the running best never rises above its initial value *)
      assert (Hmono : ∀ i, loss_lt loss_1e99 (best_loss (lp i)) = false).
      { induction i as [|i IHi]; [rewrite Hinit; apply (lt_irrefl _ Hord)|].
        rewrite best_loss_step.
        destruct (loss_lt (test_loss_at w i) (best_loss (lp i))) eqn:Hi; [|done].
        destruct (loss_lt loss_1e99 (test_loss_at w i)) eqn:Hs; [|done].
        rewrite <- IHi. symmetry.
        by apply (lt_trans _ Hord) with (test_loss_at w i). }
      rewrite <- Himp. symmetry.
      by apply (lt_negtrans _ Hord) with loss_1e99.
    + intros j Hj.
      destruct (loss_lt (test_loss_at w k) (test_loss_at w j)) eqn:Hkj; [done|].
      rewrite <- Himp. symmetry.
      apply (lt_negtrans _ Hord) with (test_loss_at w j); [done | by apply Hb].
  - intros [H1 Hall].
    destruct Ha as [->|(j & Hj & ->)]; [done | by apply Hall].
Qed.

Lemma disk_step_improved k :
  loss_lt (test_loss_at w k) (best_loss (lp k)) = true →
  disk (lw (lp (S k)))
  = <["./model.pt" := state_dict (self (lw (lp (S k))))]> (disk (lw (lp k))).
Proof.
  intros H. unfold lp in *. rewrite after_epochs_S.
  unfold test_loss_at in H. by rewrite epoch_body_improved.
Qed.

Lemma disk_step_stalled k :
  loss_lt (test_loss_at w k) (best_loss (lp k)) = false →
  disk (lw (lp (S k))) = disk (lw (lp k)).
Proof.
  intros H. unfold lp in *. rewrite after_epochs_S.
  unfold test_loss_at in H. by rewrite epoch_body_stalled.
Qed.

(** After at least one epoch whose first loss is below [1e99], the
    checkpoint is that of the epoch holding the running best. *)
Lemma checkpoint_holds_best k :
  loss_lt (test_loss_at w 0) loss_1e99 = true →
  ∃ b, (b < S k)%nat
       ∧ disk (lw (lp (S k))) !! "./model.pt"
         = Some (state_dict (self (lw (lp (S b)))))
       ∧ best_loss (lp (S k)) = test_loss_at w b
       ∧ (∀ j, (j < b)%nat →
            loss_lt (test_loss_at w b) (test_loss_at w j) = true).
Proof.
  intros H0. induction k as [|k (b & Hb & Hd & Hbest & Hfirst)].
  - exists 0%nat. assert (Himp : loss_lt (test_loss_at w 0) (best_loss (lp 0)) = true) by done.
    split_and!; [lia | | | intros; lia].
    + rewrite disk_step_improved by done. apply lookup_insert_eq.
    + by rewrite best_loss_step, Himp.
  - destruct (loss_lt (test_loss_at w (S k)) (best_loss (lp (S k)))) eqn:Himp.
    + exists (S k). split_and!; [lia | | | ].
      * rewrite disk_step_improved by done. apply lookup_insert_eq.
      * by rewrite best_loss_step, Himp.
      * by apply improves_iff.
    + exists b. split_and!; [lia | | | done].
      * by rewrite disk_step_stalled.
      * by rewrite best_loss_step, Himp.
Qed.

End BestLoss.

(** C3. Take losses ordered by a strict weak order, and a run whose
    average test losses are all below the initial best [1e99]. In each
    epoch of the run the weights are written to [./model.pt] if the
    epoch's average test loss is strictly below that of every earlier
    epoch, and otherwise the epoch writes no file at all. After
    [train], [./model.pt] holds the [state_dict] as it was at the end
    of an epoch whose average test loss no epoch of the run is
    strictly below (the first such epoch), and beside that checkpoint
    and the two loss archives no file differs from before the run. *)
Theorem checkpoint_iff_improvement (w : World) :
  StrictWeakOrder loss_lt →
  (∀ k, (k < epochs_trained w)%nat →
     loss_lt (test_loss_at w k) loss_1e99 = true) →
  let N := epochs_trained w in
  let st k := lw (after_epochs k (train_start w)) in
  (∀ k, (k < N)%nat →
     ((∀ j, (j < k)%nat →
         loss_lt (test_loss_at w k) (test_loss_at w j) = true) →
      disk (st (S k))
      = <["./model.pt" := state_dict (self (st (S k)))]> (disk (st k)))
     ∧ (¬ (∀ j, (j < k)%nat →
             loss_lt (test_loss_at w k) (test_loss_at w j) = true) →
        disk (st (S k)) = disk (st k)))
  ∧ ((0 < N)%nat →
     ∃ b, (b < N)%nat
          ∧ disk (train w) !! "./model.pt" = Some (state_dict (self (st (S b))))
          ∧ (∀ j, (j < N)%nat →
               loss_lt (test_loss_at w j) (test_loss_at w b) = false)
          ∧ (∀ j, (j < b)%nat →
               loss_lt (test_loss_at w b) (test_loss_at w j) = true))
  ∧ (∀ name, name ≠ "./model.pt" → name ≠ "train_loss.pkl" →
             name ≠ "test_loss.pkl" →
             disk (train w) !! name = disk w !! name).
Proof.
  intros Hord Hbelow N st. split_and!.
  - intros k Hk. split.
    + intros Hall. apply (disk_step_improved w).
      apply (improves_iff w Hord). split; [by apply Hbelow | done].
    + intros Hnot. apply (disk_step_stalled w).
      destruct (loss_lt (test_loss_at w k)
                  (best_loss (after_epochs k (train_start w)))) eqn:Himp; [|done].
      exfalso. apply Hnot. by apply (improves_iff w Hord).
  - intros HN. destruct N as [|N'] eqn:EN; [lia|].
    destruct (checkpoint_holds_best w Hord N') as (b & Hb & Hd & Hbest & Hfirst).
    { apply Hbelow. fold N. lia. }
    exists b. split_and!; [done | | | done].
    + rewrite train_disk_checkpoint, train_end_after.
      fold N. by rewrite EN.
    + intros j Hj. rewrite <- Hbest.
      by apply (best_loss_running_min w Hord (S N')).
  - intros name. apply train_disk_other.
Qed.

(** ** Loss archives *)

Lemma read_pickle_saved (Hpickle : ∀ l, pickle_loads (pickle_dumps l) = Some l)
    w (d : gmap string File) :
  d = disk (save_loss_pkl w) →
  read_pickle d "train_loss.pkl" = Some (train_loss (self w))
  ∧ read_pickle d "test_loss.pkl" = Some (test_loss (self w)).
Proof.
  intros ->. unfold read_pickle, save_loss_pkl; simpl. split.
  - rewrite lookup_insert_ne by done. by rewrite lookup_insert_eq.
  - by rewrite lookup_insert_eq.
Qed.

Lemma load_saved_pkl (Hpickle : ∀ l, pickle_loads (pickle_dumps l) = Some l)
    w w2 :
  disk w2 = disk (save_loss_pkl w) →
  ∃ w3, load_loss_pkl w2 = Some w3
        ∧ train_loss (self w3) = train_loss (self w)
        ∧ test_loss (self w3) = test_loss (self w)
        ∧ num_epochs (self w3) = num_epochs (self w2).
Proof.
  intros Hd.
  destruct (read_pickle_saved Hpickle w (disk w2) Hd) as [Htr Hte].
  unfold load_loss_pkl. rewrite Htr, Hte. by eexists.
Qed.

(** C10. Whatever the two lists hold, [load_loss_pkl] after
    [save_loss_pkl] succeeds and restores [train_loss] and [test_loss]
    as they were saved, also when it is a different [Model] object
    (a later process) that loads them from the same files; [pickle]
    itself is taken to read back what it wrote. *)
Theorem loss_pkl_roundtrip (w : World) :
  (∀ l, pickle_loads (pickle_dumps l) = Some l) →
  (∃ w', load_loss_pkl (save_loss_pkl w) = Some w'
         ∧ train_loss (self w') = train_loss (self w)
         ∧ test_loss (self w') = test_loss (self w))
  ∧ (∀ w2, disk w2 = disk (save_loss_pkl w) →
       ∃ w3, load_loss_pkl w2 = Some w3
             ∧ train_loss (self w3) = train_loss (self w)
             ∧ test_loss (self w3) = test_loss (self w)).
Proof.
  intros Hpickle.
  assert (Hgen : ∀ w2, disk w2 = disk (save_loss_pkl w) →
            ∃ w3, load_loss_pkl w2 = Some w3
                  ∧ train_loss (self w3) = train_loss (self w)
                  ∧ test_loss (self w3) = test_loss (self w)).
  { intros w2 Hd.
    destruct (load_saved_pkl Hpickle w w2 Hd) as (w3 & ? & ? & ? & _).
    by exists w3. }
  split; [by apply Hgen | done].
Qed.

(** ** Learning curves *)

Lemma range_length a b : length (range a b) = Z.to_nat (b - a).
Proof. unfold range. by rewrite length_map, length_seq. Qed.

Lemma plt_plot_ok {A : Type} x (y : list A) :
  plt_plot x y = Some tt ↔ length x = length y.
Proof. unfold plt_plot. case_decide; split; done. Qed.

Lemma plot_curves_ok (m : Model) :
  plot_curves m = Some tt
  ↔ length (train_loss m) = Z.to_nat (num_epochs m)
    ∧ length (test_loss m) = Z.to_nat (num_epochs m).
Proof.
  unfold plot_curves.
  assert (Hx : length (range 1 (num_epochs m + 1)) = Z.to_nat (num_epochs m)).
  { rewrite range_length. f_equal. lia. }
  destruct (plt_plot _ (train_loss m)) as [[]|] eqn:H1.
  - apply plt_plot_ok in H1. rewrite plt_plot_ok. rewrite Hx in *.
    split; [by intros <- | by intros [_ ?]].
  - split; [done|]. intros [H2 _].
    assert (plt_plot (range 1 (num_epochs m + 1)) (train_loss m) = Some tt)
      by (apply plt_plot_ok; congruence).
    congruence.
Qed.

(** C9. [plot_curves] plots both lists against [1 .. num_epochs]
    and so succeeds exactly when [train_loss] and [test_loss] each
    have [num_epochs] entries. A run of [train] on empty lists that
    early stopping ended before [num_epochs] epochs leaves lists
    shorter than that: [plot_curves] then fails, on the object that
    trained and on any object with the same [num_epochs] that loads
    the saved archives. *)
Theorem plot_curves_fails_after_early_stop (w : World) :
  train_loss (self w) = [] →
  test_loss (self w) = [] →
  (epochs_trained w < Z.to_nat (num_epochs (self w)))%nat →
  (∀ m, plot_curves m = Some tt
        ↔ length (train_loss m) = Z.to_nat (num_epochs m)
          ∧ length (test_loss m) = Z.to_nat (num_epochs m))
  ∧ (∀ m, range 1 (num_epochs m + 1)
          = map Z.of_nat (seq 1 (Z.to_nat (num_epochs m))))
  ∧ early_stopping_counter (train_end w) = early_stopping_epochs (self w)
  ∧ Z.of_nat (length (train_loss (self (train w)))) < num_epochs (self w)
  ∧ Z.of_nat (length (test_loss (self (train w)))) < num_epochs (self w)
  ∧ plot_curves (self (train w)) = None
  ∧ (save_loss (self w) = true →
     (∀ l, pickle_loads (pickle_dumps l) = Some l) →
     ∀ w2, disk w2 = disk (train w) →
           num_epochs (self w2) = num_epochs (self w) →
           ∃ w3, load_loss_pkl w2 = Some w3
                 ∧ plot_curves (self w3) = None).
Proof.
  intros Htr0 Hte0 Hearly.
  destruct (train_lengths w) as [Htr Hte].
  rewrite Htr0 in Htr. rewrite Hte0 in Hte. simpl in Htr, Hte.
  assert (Hnone : ∀ m,
            length (train_loss m) ≠ Z.to_nat (num_epochs m) →
            plot_curves m = None).
  { intros m Hm. destruct (plot_curves m) as [[]|] eqn:Hp; [|done].
    apply plot_curves_ok in Hp. by destruct Hp. }
  assert (Hnum : num_epochs (self (train w)) = num_epochs (self w)).
  { rewrite train_self, train_end_after.
    pose proof (after_epochs_settings (epochs_trained w) (train_start w)) as Hs.
    unfold settings in Hs. by simplify_eq. }
  split_and!.
  - apply plot_curves_ok.
  - intros m. unfold range.
    replace (num_epochs m + 1 - 1) with (num_epochs m) by lia.
    generalize (Z.to_nat (num_epochs m)) as n. intros n.
    rewrite <- (fmap_S_seq 0 n).
    change (map Z.of_nat (S <$> seq 0 n)) with (Z.of_nat <$> (S <$> seq 0 n)).
    rewrite <- list_fmap_compose. apply list_fmap_ext. intros _ i _. simpl. lia.
  - by apply train_end_stopped.
  - rewrite Htr. lia.
  - rewrite Hte. lia.
  - apply Hnone. rewrite Htr, Hnum. lia.
  - intros Hsave Hpickle w2 Hd Hn.
    assert (Hd' : disk w2 = disk (save_loss_pkl (lw (train_end w)))).
    { rewrite Hd. unfold train. by rewrite train_end_save_loss, Hsave. }
    destruct (load_saved_pkl Hpickle (lw (train_end w)) w2 Hd')
      as (w3 & Hw3 & Htr3 & Hte3 & Hn3).
    exists w3. split; [done|]. apply Hnone.
    rewrite Htr3, <- train_self, Htr, Hn3, Hn. lia.
Qed.

(** ** The train/test split *)

Lemma split_point_div5 n : split_point n = (n / 5)%nat.
Proof.
  unfold split_point, test_split, Qfloor, Qmult, inject_Z; simpl Qnum; simpl Qden.
  change (Z.pos (10 * 1)) with (2 * 5).
  rewrite Z.div_mul_cancel_l by lia.
  change 5 with (Z.of_nat 5). rewrite <- Nat2Z.inj_div. apply Nat2Z.id.
Qed.

(** The split point does not depend on reading [0.2] as the decimal
    or as the double nearest to it, for any dataset below 2^54 files. *)
Lemma split_point_binary64 n :
  Z.of_nat n < 2 ^ 54 →
  Qfloor (test_split_binary64 * inject_Z (Z.of_nat n)) = Z.of_nat (split_point n).
Proof.
  intros Hn. rewrite split_point_div5.
  unfold test_split_binary64, Qfloor, Qmult, inject_Z; simpl Qnum; simpl Qden.
  change (Z.pos (18014398509481984 * 1)) with 18014398509481984.
  change (2 ^ 54) with 18014398509481984 in Hn.
  rewrite Nat2Z.inj_div. change (Z.of_nat 5) with 5.
  set (z := Z.of_nat n) in *.
  assert (0 ≤ z) by (unfold z; lia).
  pose proof (Z.div_mod z 5 ltac:(lia)) as Hdm.
  pose proof (Z.mod_pos_bound z 5 ltac:(lia)) as Hr.
  symmetry.
  apply (Z.div_unique _ _ _ (z / 5 + 3602879701896397 * (z mod 5))); lia.
Qed.

Lemma split_point_floor n :
  Z.of_nat (split_point n) = Qfloor (test_split * inject_Z (Z.of_nat n)).
Proof.
  unfold split_point. apply Z2Nat.id.
  unfold test_split, Qfloor, Qmult, inject_Z; simpl Qnum; simpl Qden.
  apply Z.div_pos; lia.
Qed.

Lemma train_settings w : settings (self (train w)) = settings (self w).
Proof.
  rewrite train_self, train_end_after.
  apply (after_epochs_settings (epochs_trained w) (train_start w)).
Qed.

(** C2. For a dataset of [n] files, with a shuffle that permutes its
    argument, the constructor's [train_indices] and [test_indices]
    partition [0 .. n-1]: together they are a permutation of it,
    without repetition, no index is in both and every index below [n]
    is in one; the test part has [floor(0.2 * n)] indices, which is
    [n / 5], and the train part the other [n - floor(0.2 * n)]. The
    two parts are the two ends of the shuffle of [0 .. n-1] with seed
    42, and [train] leaves them as they are. *)
Theorem split_is_partition (all_images : list string) (unet : Net)
    (adam : OptState) :
  (∀ seed l, np_random_shuffle seed l ≡ₚ l) →
  let n := length all_images in
  let m := Model_init all_images unet adam in
  train_indices m ++ test_indices m ≡ₚ seq 0 n
  ∧ NoDup (train_indices m ++ test_indices m)
  ∧ (∀ i, i ∈ train_indices m → i ∉ test_indices m)
  ∧ (∀ i, (i < n)%nat ↔ i ∈ train_indices m ∨ i ∈ test_indices m)
  ∧ Z.of_nat (length (test_indices m))
    = Qfloor (test_split * inject_Z (Z.of_nat n))
  ∧ length (test_indices m) = (n / 5)%nat
  ∧ length (train_indices m) = (n - length (test_indices m))%nat
  ∧ (length (train_indices m) + length (test_indices m))%nat = n
  ∧ test_indices m ++ train_indices m = np_random_shuffle 42 (seq 0 n)
  ∧ (∀ d, train_indices (self (train (mkWorld m d))) = train_indices m
          ∧ test_indices (self (train (mkWorld m d))) = test_indices m).
Proof.
  intros Hshuffle n m.
  set (ix := np_random_shuffle 42 (seq 0 n)).
  assert (Htr : train_indices m = drop (split_point n) ix) by done.
  assert (Hte : test_indices m = take (split_point n) ix) by done.
  assert (Hix : ix ≡ₚ seq 0 n) by apply Hshuffle.
  assert (Hlen : length ix = n).
  { rewrite Hix. apply length_seq. }
  assert (Hsp : (split_point n ≤ n)%nat).
  { rewrite split_point_div5. apply Nat.Div0.div_le_upper_bound. lia. }
  assert (Hperm : train_indices m ++ test_indices m ≡ₚ seq 0 n).
  { rewrite Htr, Hte, (Permutation_app_comm (drop _ _)), take_drop. done. }
  assert (Hnd : NoDup (train_indices m ++ test_indices m)).
  { rewrite Hperm. apply NoDup_seq. }
  assert (Hlte : length (test_indices m) = split_point n).
  { rewrite Hte, length_take. lia. }
  assert (Hltr : length (train_indices m) = (n - split_point n)%nat).
  { rewrite Htr, length_drop. lia. }
  split_and!; try done.
  - apply NoDup_app in Hnd. by destruct Hnd as (_ & Hdisj & _).
  - intros i. rewrite <- elem_of_app, Hperm, elem_of_seq. lia.
  - rewrite Hlte. apply split_point_floor.
  - rewrite Hlte. apply split_point_div5.
  - by rewrite Hltr, Hlte.
  - rewrite Hltr, Hlte. lia.
  - rewrite Htr, Hte. apply take_drop.
  - intros d.
    pose proof (train_settings (mkWorld m d)) as Hs.
    unfold settings in Hs; simpl self in Hs. by simplify_eq.
Qed.

(** ** Inference *)

(** *** Rounding to float32 *)

Lemma pow2_pos (z : Z) : (0 < Qpower (2 # 1) z)%Q.
Proof. by apply Qpower_0_lt. Qed.

Lemma pow2_plus (a b : Z) :
  (Qpower (2 # 1) (a + b) == Qpower (2 # 1) a * Qpower (2 # 1) b)%Q.
Proof. by apply Qpower_plus. Qed.

Lemma pow2_le (a b : Z) : a ≤ b → (Qpower (2 # 1) a <= Qpower (2 # 1) b)%Q.
Proof. intros H. by apply Qpower_le_compat_l. Qed.

Lemma pow2_lt (a b : Z) : a < b → (Qpower (2 # 1) a < Qpower (2 # 1) b)%Q.
Proof. intros H. by apply Qpower_lt_compat_l. Qed.

Lemma pow2_Z (n : Z) : 0 ≤ n → (Qpower (2 # 1) n == inject_Z (2 ^ n))%Q.
Proof. intros H. symmetry. by apply (Zpower_Qpower 2 n). Qed.

Lemma round_half_even_bounds (x : Q) :
  Qfloor x ≤ round_half_even x ≤ Qfloor x + 1.
Proof.
  unfold round_half_even.
  destruct (x - inject_Z (Qfloor x) ?= 1 # 2)%Q; [destruct (Z.even _)|..]; lia.
Qed.

Lemma round_half_even_Z (k : Z) : round_half_even (inject_Z k) = k.
Proof.
  unfold round_half_even. rewrite Qfloor_Z.
  assert (inject_Z k - inject_Z k == 0)%Q as -> by ring. done.
Qed.

Lemma round_half_even_comp (x y : Q) :
  (x == y)%Q → round_half_even x = round_half_even y.
Proof.
  intros H. unfold round_half_even.
  rewrite (Qfloor_comp x y H).
  assert (Hsub : (x - inject_Z (Qfloor y) == y - inject_Z (Qfloor y))%Q).
  { apply Qplus_comp; [exact H | reflexivity]. }
  by rewrite (Qcompare_comp _ _ Hsub (1 # 2) (1 # 2) (Qeq_refl _)).
Qed.

Lemma round_half_even_mono (x y : Q) :
  (x <= y)%Q → round_half_even x ≤ round_half_even y.
Proof.
  intros Hxy.
  pose proof (Qfloor_resp_le x y Hxy) as Hfl.
  pose proof (round_half_even_bounds x) as Hx.
  pose proof (round_half_even_bounds y) as Hy.
  destruct (decide (Qfloor x = Qfloor y)) as [Heq|Hne]; [|lia].
  unfold round_half_even in *. rewrite <- Heq in *.
  destruct (Qcompare_spec (x - inject_Z (Qfloor x)) (1 # 2)) as [Hx'|Hx'|Hx'];
    destruct (Qcompare_spec (y - inject_Z (Qfloor x)) (1 # 2)) as [Hy'|Hy'|Hy'];
    try destruct (Z.even _); try lia; exfalso; lra.
Qed.

Lemma Qfloor_unique (x : Q) (k : Z) :
  (inject_Z k <= x)%Q → (x < inject_Z (k + 1))%Q → Qfloor x = k.
Proof.
  intros Hlo Hhi.
  pose proof (Qfloor_le x) as Hlo'. pose proof (Qlt_floor x) as Hhi'.
  assert (k < Qfloor x + 1) by (rewrite Zlt_Qlt, ?inject_Z_plus in *; change (inject_Z 1) with 1%Q in *; lra).
  assert (Qfloor x < k + 1) by (rewrite Zlt_Qlt, ?inject_Z_plus in *; change (inject_Z 1) with 1%Q in *; lra).
  lia.
Qed.

Lemma round_half_even_below (x : Q) (k : Z) :
  (x < inject_Z k + (1 # 2))%Q → round_half_even x ≤ k.
Proof.
  intros Hx.
  pose proof (Qfloor_le x) as Hfl.
  assert (Hk : Qfloor x < k + 1).
  { rewrite Zlt_Qlt, inject_Z_plus. change (inject_Z 1) with 1%Q. lra. }
  destruct (decide (Qfloor x = k)) as [Heq|Hne].
  - unfold round_half_even. rewrite Heq.
    destruct (Qcompare_spec (x - inject_Z k) (1 # 2)); [exfalso; lra|lia|exfalso; lra].
  - pose proof (round_half_even_bounds x). lia.
Qed.

Lemma round_half_even_opp (x : Q) : round_half_even (- x) = - round_half_even x.
Proof.
  pose proof (Qfloor_le x) as Hlo. pose proof (Qlt_floor x) as Hhi.
  set (n := Qfloor x) in *. rewrite inject_Z_plus in Hhi. change (inject_Z 1) with 1%Q in Hhi.
  destruct (Qeq_dec x (inject_Z n)) as [Hint|Hfrac].
  - rewrite (round_half_even_comp x (inject_Z n)) by done.
    rewrite (round_half_even_comp (- x) (inject_Z (- n))).
    + by rewrite !round_half_even_Z.
    + rewrite inject_Z_opp. lra.
  - assert (Hfl : Qfloor (- x) = - n - 1).
    { apply Qfloor_unique.
      - unfold Z.sub. rewrite inject_Z_plus, !inject_Z_opp. change (inject_Z 1) with 1%Q. lra.
      - replace (- n - 1 + 1) with (- n) by lia. rewrite inject_Z_opp.
        assert (~ (x == inject_Z n)%Q) by done. lra. }
    unfold round_half_even. rewrite Hfl. fold n.
    assert (Hsub : (- x - inject_Z (- n - 1) == 1 - (x - inject_Z n))%Q).
    { unfold Z.sub. rewrite inject_Z_plus, !inject_Z_opp. change (inject_Z 1) with 1%Q. lra. }
    rewrite (Qcompare_comp _ _ Hsub (1 # 2) (1 # 2) (Qeq_refl _)).
    replace (- n - 1) with (- (n + 1)) by lia.
    rewrite Z.even_opp, Z.even_add. simpl (Z.even 1).
    destruct (Qcompare_spec (x - inject_Z n) (1 # 2)) as [He|Hl|Hg];
      destruct (Qcompare_spec (1 - (x - inject_Z n)) (1 # 2)) as [He'|Hl'|Hg'];
      try (exfalso; lra); destruct (Z.even n); simpl; lia.
Qed.

Lemma pow2_lt_inv (a b : Z) :
  (Qpower (2 # 1) a < Qpower (2 # 1) b)%Q → a < b.
Proof.
  intros H. destruct (decide (a < b)) as [|Hge]; [done|]. exfalso.
  assert (Hle : (Qpower (2 # 1) b <= Qpower (2 # 1) a)%Q) by (apply pow2_le; lia).
  lra.
Qed.

Lemma Qabs_make (q : Q) : Qabs q = Z.abs (Qnum q) # Qden q.
Proof. by destruct q. Qed.

Lemma Qmake_mult_den (a : Z) (d : positive) :
  ((a # d) * inject_Z (Z.pos d) == inject_Z a)%Q.
Proof. unfold Qeq, Qmult, inject_Z. simpl. lia. Qed.

Lemma binade_spec (q : Q) :
  ¬ (q == 0)%Q →
  (Qpower (2 # 1) (binade q) <= Qabs q)%Q
  ∧ (Qabs q < Qpower (2 # 1) (binade q + 1))%Q.
Proof.
  intros Hq.
  assert (Hn : 0 < Z.abs (Qnum q)).
  { destruct q as [n d]. unfold Qeq in Hq. simpl in *. lia. }
  pose proof (Z.log2_spec _ Hn) as [Hlo Hhi].
  pose proof (Z.log2_spec (Z.pos (Qden q)) (Pos2Z.is_pos _)) as [Hlo' Hhi'].
  pose proof (Z.log2_nonneg (Z.abs (Qnum q))) as Hla.
  pose proof (Z.log2_nonneg (Z.pos (Qden q))) as Hld.
  set (la := Z.log2 (Z.abs (Qnum q))) in *.
  set (ld := Z.log2 (Z.pos (Qden q))) in *.
  pose proof (Qmake_mult_den (Z.abs (Qnum q)) (Qden q)) as Hmul.
  rewrite <- Qabs_make in Hmul.
  rewrite Zle_Qle, <- pow2_Z in Hlo, Hlo' by lia.
  rewrite Zlt_Qlt, <- pow2_Z in Hhi, Hhi' by lia.
  set (A := inject_Z (Z.abs (Qnum q))) in *.
  set (D := inject_Z (Z.pos (Qden q))) in *.
  assert (HD : (0 < D)%Q) by (pose proof (pow2_pos ld); lra).
  assert (Hup : (Qabs q < Qpower (2 # 1) (la - ld + 1))%Q).
  { apply (Qmult_lt_r _ _ D HD). rewrite Hmul.
    eapply Qlt_le_trans; [exact Hhi|].
    replace (Z.succ la) with ((la - ld + 1) + ld) by lia. rewrite pow2_plus.
    apply Qmult_le_l; [apply pow2_pos | exact Hlo']. }
  assert (Hdn : (Qpower (2 # 1) (la - ld - 1) < Qabs q)%Q).
  { apply (Qmult_lt_r _ _ (Qpower (2 # 1) (Z.succ ld)) (pow2_pos _)).
    rewrite <- pow2_plus. replace (la - ld - 1 + Z.succ ld) with la by lia.
    eapply Qle_lt_trans; [exact Hlo|]. rewrite <- Hmul.
    apply Qmult_lt_l; [|exact Hhi'].
    apply (Qmult_lt_r _ _ D HD). rewrite Hmul. ring_simplify.
    pose proof (pow2_pos la). lra. }
  unfold binade. fold la ld.
  destruct (Qle_bool _ _) eqn:Hb.
  - apply Qle_bool_iff in Hb. done.
  - apply not_true_iff_false in Hb. rewrite Qle_bool_iff in Hb.
    replace (la - ld - 1 + 1) with (la - ld) by lia.
    split; [by apply Qlt_le_weak | by apply Qnot_le_lt].
Qed.

Lemma binade_mono (q q' : Q) :
  (0 < q)%Q → (q <= q')%Q → binade q ≤ binade q'.
Proof.
  intros Hq Hle.
  destruct (binade_spec q) as [Hlo _]; [lra|].
  destruct (binade_spec q') as [_ Hhi]; [lra|].
  rewrite Qabs_pos in Hlo, Hhi by lra.
  assert (binade q < binade q' + 1); [|lia].
  apply pow2_lt_inv. lra.
Qed.

Lemma round_float32_cases (q : Q) :
  ((q == 0)%Q ∧ round_float32 q = 0%Q)
  ∨ (¬ (q == 0)%Q ∧ (float32_overflow <= Qabs q)%Q ∧ round_float32 q = q)
  ∨ (¬ (q == 0)%Q ∧ (Qabs q < float32_overflow)%Q
     ∧ round_float32 q = on_grid q).
Proof.
  unfold round_float32.
  destruct (Qeq_bool q 0) eqn:H0.
  { left. by apply Qeq_bool_iff in H0. }
  apply Qeq_bool_neq in H0. right.
  destruct (Qle_bool float32_overflow (Qabs q)) eqn:Hov.
  - left. by apply Qle_bool_iff in Hov.
  - right. apply not_true_iff_false in Hov. rewrite Qle_bool_iff in Hov.
    split_and!; [done | by apply Qnot_le_lt | done].
Qed.

Lemma div_pow2_le (x y : Q) (k : Z) :
  (x <= y)%Q → (x / Qpower (2 # 1) k <= y / Qpower (2 # 1) k)%Q.
Proof.
  intros H. unfold Qdiv. apply Qmult_le_compat_r; [done|].
  apply Qlt_le_weak, Qinv_lt_0_compat, pow2_pos.
Qed.

Lemma div_pow2 (a b : Z) :
  (Qpower (2 # 1) a / Qpower (2 # 1) b == Qpower (2 # 1) (a - b))%Q.
Proof. symmetry. by apply Qpower_minus. Qed.

Lemma on_grid_upper (q : Q) :
  (0 < q)%Q → (on_grid q <= Qpower (2 # 1) (Z.max (binade q) (-126) + 1))%Q.
Proof.
  intros Hq. unfold on_grid.
  set (E := Z.max (binade q) (-126)).
  destruct (binade_spec q) as [_ Hhi]; [lra|]. rewrite Qabs_pos in Hhi by lra.
  assert (Hle : (q <= Qpower (2 # 1) (E + 1))%Q).
  { apply Qlt_le_weak. eapply Qlt_le_trans; [exact Hhi|]. apply pow2_le. lia. }
  apply (div_pow2_le _ _ (E - 23)) in Hle. rewrite div_pow2 in Hle.
  replace (E + 1 - (E - 23)) with 24 in Hle by lia.
  apply round_half_even_mono in Hle.
  rewrite (round_half_even_comp (Qpower (2 # 1) 24) (inject_Z (2 ^ 24))) in Hle by reflexivity.
  rewrite round_half_even_Z in Hle.
  replace (E + 1) with (24 + (E - 23)) by lia. rewrite pow2_plus.
  apply Qmult_le_compat_r; [|apply Qlt_le_weak, pow2_pos].
  rewrite Zle_Qle in Hle. exact Hle.
Qed.

Lemma on_grid_lower (q : Q) :
  (0 < q)%Q → -126 ≤ binade q → (Qpower (2 # 1) (binade q) <= on_grid q)%Q.
Proof.
  intros Hq Hb. unfold on_grid.
  replace (Z.max (binade q) (-126)) with (binade q) by lia.
  set (E := binade q) in *.
  destruct (binade_spec q) as [Hlo _]; [lra|]. rewrite Qabs_pos in Hlo by lra.
  fold E in Hlo.
  apply (div_pow2_le _ _ (E - 23)) in Hlo. rewrite div_pow2 in Hlo.
  replace (E - (E - 23)) with 23 in Hlo by lia.
  apply round_half_even_mono in Hlo.
  rewrite (round_half_even_comp (Qpower (2 # 1) 23) (inject_Z (2 ^ 23))) in Hlo by reflexivity.
  rewrite round_half_even_Z in Hlo.
  replace E with (23 + (E - 23)) at 1 by lia. rewrite pow2_plus.
  apply Qmult_le_compat_r; [|apply Qlt_le_weak, pow2_pos].
  rewrite Zle_Qle in Hlo. exact Hlo.
Qed.

Lemma on_grid_nonneg (q : Q) : (0 <= q)%Q → (0 <= on_grid q)%Q.
Proof.
  intros Hq. unfold on_grid.
  set (k := Z.max (binade q) (-126) - 23).
  apply Qmult_le_0_compat; [|apply Qlt_le_weak, pow2_pos].
  assert (H0 : (0 <= q / Qpower (2 # 1) k)%Q).
  { apply Qle_shift_div_l; [apply pow2_pos | lra]. }
  apply round_half_even_mono in H0.
  change 0%Q with (inject_Z 0) in H0 at 1.
  rewrite (round_half_even_Z 0) in H0. by rewrite Zle_Qle in H0.
Qed.

Lemma on_grid_mono (q q' : Q) :
  (0 < q)%Q → (q <= q')%Q → (on_grid q <= on_grid q')%Q.
Proof.
  intros Hq Hle.
  pose proof (binade_mono q q' Hq Hle) as Hb.
  destruct (decide (Z.max (binade q) (-126) = Z.max (binade q') (-126)))
    as [Heq|Hne].
  - unfold on_grid. rewrite <- Heq.
    set (k := Z.max (binade q) (-126) - 23).
    apply Qmult_le_compat_r; [|apply Qlt_le_weak, pow2_pos].
    rewrite <- Zle_Qle. by apply round_half_even_mono, div_pow2_le.
  - eapply Qle_trans; [by apply on_grid_upper|].
    eapply Qle_trans; [|apply on_grid_lower; [lra | lia]].
    apply pow2_le. lia.
Qed.

Lemma on_grid_below_overflow (q : Q) :
  (0 < q)%Q → (q < float32_overflow)%Q → (on_grid q <= float32_overflow)%Q.
Proof.
  intros Hq Hov.
  destruct (binade_spec q) as [Hlo _]; [lra|]. rewrite Qabs_pos in Hlo by lra.
  assert (Hb : binade q < 128).
  { apply pow2_lt_inv. eapply Qle_lt_trans; [exact Hlo|].
    eapply Qlt_trans; [exact Hov|]. reflexivity. }
  destruct (decide (binade q = 127)) as [H127|Hlt].
  - unfold on_grid. rewrite H127. simpl (Z.max _ _ - 23).
    assert (Hx : (q / Qpower (2 # 1) 104 < inject_Z (2 ^ 24 - 1) + (1 # 2))%Q).
    { apply Qlt_shift_div_r; [apply pow2_pos|].
      eapply Qlt_le_trans; [exact Hov|]. by vm_compute. }
    apply round_half_even_below in Hx. rewrite Zle_Qle in Hx.
    eapply Qle_trans.
    + apply Qmult_le_compat_r; [exact Hx | apply Qlt_le_weak, pow2_pos].
    + by vm_compute.
  - eapply Qle_trans; [by apply on_grid_upper|].
    eapply Qle_trans; [apply (pow2_le _ 127); lia|]. by vm_compute.
Qed.

Lemma Qopp_opp_eq (q : Q) : (- - q)%Q = q.
Proof. destruct q as [n d]. unfold Qopp. simpl. by rewrite Z.opp_involutive. Qed.

Lemma Qabs_opp_eq (q : Q) : Qabs (- q) = Qabs q.
Proof. destruct q as [n d]. unfold Qopp, Qabs. simpl. by rewrite Z.abs_opp. Qed.

Lemma binade_opp (q : Q) : binade (- q) = binade q.
Proof.
  unfold binade. rewrite Qabs_opp_eq.
  destruct q as [n d]. simpl. by rewrite Z.abs_opp.
Qed.

Lemma on_grid_opp (q : Q) : (on_grid (- q) == - on_grid q)%Q.
Proof.
  unfold on_grid. rewrite binade_opp.
  set (k := Z.max (binade q) (-126) - 23).
  rewrite (round_half_even_comp (- q / Qpower (2 # 1) k)
             (- (q / Qpower (2 # 1) k))).
  - rewrite round_half_even_opp, inject_Z_opp. ring.
  - unfold Qdiv. ring.
Qed.

Lemma round_float32_opp (q : Q) : (round_float32 (- q) == - round_float32 q)%Q.
Proof.
  destruct (round_float32_cases q) as [[H0 ->]|[(H0 & Hov & ->)|(H0 & Hov & ->)]];
    destruct (round_float32_cases (- q))
      as [[H0' ->]|[(H0' & Hov' & ->)|(H0' & Hov' & ->)]];
    rewrite ?Qabs_opp_eq in *; try lra; try reflexivity.
  apply on_grid_opp.
Qed.

Lemma round_float32_nonneg (q : Q) : (0 <= q)%Q → (0 <= round_float32 q)%Q.
Proof.
  intros Hq.
  destruct (round_float32_cases q) as [[H0 ->]|[(H0 & Hov & ->)|(H0 & Hov & ->)]];
    [lra | done | by apply on_grid_nonneg].
Qed.

Lemma round_float32_mono_pos (t t' : Q) :
  (0 < t)%Q → (t <= t')%Q → (round_float32 t <= round_float32 t')%Q.
Proof.
  intros Ht Hle.
  destruct (round_float32_cases t) as [[H0 _]|[(_ & Hov & ->)|(_ & Hov & ->)]];
    [lra|..];
    (destruct (round_float32_cases t')
      as [[H0' _]|[(_ & Hov' & ->)|(_ & Hov' & ->)]]; [lra|..]);
    rewrite Qabs_pos in Hov, Hov' by lra.
  - done.
  - lra.
  - eapply Qle_trans; [by apply on_grid_below_overflow|done].
  - by apply on_grid_mono.
Qed.

Lemma round_float32_mono (t t' : Q) :
  (t <= t')%Q → (round_float32 t <= round_float32 t')%Q.
Proof.
  intros Hle.
  destruct (Qlt_le_dec 0 t) as [Hpos|Hneg].
  { by apply round_float32_mono_pos. }
  destruct (Qlt_le_dec t' 0) as [Hneg'|Hpos'].
  - rewrite <- (Qopp_opp_eq t), <- (Qopp_opp_eq t').
    rewrite (round_float32_opp (- t)), (round_float32_opp (- t')).
    apply Qopp_le_compat, round_float32_mono_pos; lra.
  - eapply Qle_trans; [|by apply round_float32_nonneg].
    rewrite <- (Qopp_opp_eq t), (round_float32_opp (- t)).
    assert (0 <= round_float32 (- t))%Q by (apply round_float32_nonneg; lra).
    lra.
Qed.

(** *** Thresholding *)

Lemma gt_threshold_spec p t : gt_threshold p t = true ↔ (round_float32 t < p)%Q.
Proof.
  unfold gt_threshold. rewrite negb_true_iff, <- not_true_iff_false, Qle_bool_iff.
  split; [apply Qnot_le_lt | apply Qlt_not_le].
Qed.

Lemma binarize_lookup t pred i j :
  binarize t pred !! i ≫= (.!! j)
  = (λ p, gt_threshold p t) <$> (pred !! i ≫= (.!! j)).
Proof.
  unfold binarize.
  change (map (map (λ p, gt_threshold p t)) pred)
    with (fmap (M:=list) (fmap (M:=list) (λ p, gt_threshold p t)) pred).
  rewrite list_lookup_fmap.
  destruct (pred !! i) as [row|]; simpl; [|done].
  apply list_lookup_fmap.
Qed.

(** What one row of [infer_data] is and does, when it does not raise. *)
Lemma infer_row_spec t m k :
  match test_dataloader k with
  | [] => infer_row t m k = None
  | (img, mask) :: _ =>
      if cuda_is_available then infer_row t m k = None
      else
        ∃ m' r, infer_row t m k = Some (m', r)
                ∧ params (net m') = params (net m)
                ∧ buffers (net m')
                  = snd (net_forward (params (net m)) (buffers (net m)) img)
                ∧ grads (net m') = grads (net m)
                ∧ optimizer m' = optimizer m
                ∧ settings m' = settings m
                ∧ train_loss m' = train_loss m
                ∧ test_loss m' = test_loss m
                ∧ row_img r = img
                ∧ row_mask r = mask
                ∧ row_pred r
                  = pred_numpy (fst (net_forward (params (net m)) (buffers (net m)) img))
                ∧ row_pred_bin r = binarize t (row_pred r)
  end.
Proof.
  unfold infer_row. destruct (test_dataloader k) as [|[img mask] rest]; [done|].
  destruct cuda_is_available; [done|].
  destruct (net_forward _ _ _) as [pred bufs]. by eexists _, _.
Qed.

Lemma infer_row_bin t m k m' r :
  infer_row t m k = Some (m', r) → row_pred_bin r = binarize t (row_pred r).
Proof.
  intros H. pose proof (infer_row_spec t m k) as Hs.
  destruct (test_dataloader k) as [|[img mask] ?]; [congruence|].
  destruct cuda_is_available; [congruence|].
  destruct Hs as (m1 & r1 & Hr & Hrest). rewrite Hr in H.
  injection H as <- <-. apply Hrest.
Qed.

Lemma infer_rows_bin t ks :
  ∀ m m' rows,
    infer_rows t ks m = Some (m', rows) →
    length rows = length ks
    ∧ ∀ r, r ∈ rows → row_pred_bin r = binarize t (row_pred r).
Proof.
  induction ks as [|k ks IH]; intros m m' rows; simpl.
  { intros [= _ <-]. split; [done|]. intros r Hr. by apply elem_of_nil in Hr. }
  destruct (infer_row t m k) as [[m1 r1]|] eqn:Hrow; [|done].
  destruct (infer_rows t ks m1) as [[m2 rs]|] eqn:Hrows; [|done].
  intros [= _ <-]. destruct (IH _ _ _ Hrows) as [Hl Hall].
  split; [simpl; by rewrite Hl|].
  intros r [->|Hr]%elem_of_cons; [by eapply infer_row_bin | by apply Hall].
Qed.

(** Row [i] of a run of rows from [s] on is the row of loader
    iteration [s + i], computed with the parameters of the model and
    the buffers the earlier rows left. *)
Lemma infer_rows_row t m0 n :
  ∀ s m m' rows,
    params (net m) = params (net m0) →
    buffers (net m) = buffers_at_row m0 s →
    infer_rows t (seq s n) m = Some (m', rows) →
    ∀ i r, rows !! i = Some r →
      ∃ img mask rest,
        test_dataloader (s + i)%nat = (img, mask) :: rest
        ∧ row_img r = img
        ∧ row_mask r = mask
        ∧ row_pred r
          = pred_numpy (fst (net_forward (params (net m0))
                                         (buffers_at_row m0 (s + i)) img))
        ∧ row_pred_bin r = binarize t (row_pred r).
Proof.
  induction n as [|n IH]; intros s m m' rows Hp Hb; simpl.
  { intros [= _ <-] i r Hr. by rewrite lookup_nil in Hr. }
  pose proof (infer_row_spec t m s) as Hrow.
  destruct (infer_row t m s) as [[m1 r1]|] eqn:Hr1; [|done].
  destruct (infer_rows t (seq (S s) n) m1) as [[m2 rs]|] eqn:Hrows; [|done].
  intros [= _ <-] i r Hr.
  destruct (test_dataloader s) as [|[img mask] rest] eqn:Hs; [done|].
  destruct cuda_is_available; [done|].
  destruct Hrow as (m1' & r1' & [= <- <-] & Hp1 & Hb1 & _ & _ & _ & _ & _
                    & Hi & Hm & Hpred & Hbin).
  destruct i as [|i]; simpl in Hr.
  - injection Hr as <-. exists img, mask, rest.
    rewrite Nat.add_0_r, <- Hp, <- Hb. by split_and!.
  - replace (s + S i)%nat with (S s + i)%nat by lia.
    apply (IH (S s) m1 m2 rs); [congruence | | done | done].
    simpl. by rewrite Hs, Hb1, Hp, Hb.
Qed.

Lemma infer_rows_spec t ks :
  ∀ m,
    (infer_rows t ks m = None
     ↔ ∃ k, k ∈ ks ∧ (test_dataloader k = [] ∨ cuda_is_available = true))
    ∧ ∀ m' rows, infer_rows t ks m = Some (m', rows) →
        params (net m') = params (net m)
        ∧ grads (net m') = grads (net m)
        ∧ optimizer m' = optimizer m
        ∧ settings m' = settings m
        ∧ train_loss m' = train_loss m
        ∧ test_loss m' = test_loss m.
Proof.
  induction ks as [|k ks IH]; intros m; simpl.
  { split; [|by intros m' rows [= <- _]].
    split; [done|]. intros (k & Hk & _). by apply elem_of_nil in Hk. }
  pose proof (infer_row_spec t m k) as Hrow.
  destruct (test_dataloader k) as [|[img mask] rest] eqn:Hk.
  { rewrite Hrow. split; [|done]. split; [|done].
    intros _. exists k. split; [apply elem_of_cons; by left | by left]. }
  destruct cuda_is_available eqn:Hcuda.
  { rewrite Hrow. split; [|done]. split; [|done].
    intros _. exists k. split; [apply elem_of_cons; by left | by right]. }
  destruct Hrow as (m1 & r & -> & Hp & _ & Hg & Ho & Hs & Htr & Hte & _).
  destruct (IH m1) as [Hnone Hsome].
  destruct (infer_rows t ks m1) as [[m2 rs]|] eqn:Hrows.
  - split.
    + split; [done|].
      intros (k' & [->|Hin]%elem_of_cons & [Hk'|Hk']); [congruence | done | |].
      * assert (Hx : Some (m2, rs) = None)
          by (apply Hnone; exists k'; split; [done | by left]).
        discriminate Hx.
      * done.
    + intros m' rows [= <- _].
      destruct (Hsome m2 rs eq_refl) as (-> & -> & -> & -> & -> & ->). done.
  - split; [|done]. split; [|done]. intros _.
    destruct Hnone as [Hex _]. destruct (Hex eq_refl) as (k' & Hin & Hk').
    exists k'. split; [apply elem_of_cons; by right | done].
Qed.

(** C6, amended. [infer_data] compares every predicted value with a
    threshold that the caller may pass and that is 0.5 when left out.
    On the CPU, with a test loader that yields a batch at each of its
    first six iterations, it returns. Each of the six rows it produces
    holds the first batch of one iteration over the test loader and the
    prediction of the network for it; the binary prediction has a pixel
    wherever the prediction has one, and that pixel is set exactly when
    the predicted value is greater than the threshold as float32 holds
    it. For the default 0.5, and for every threshold that float32 holds
    exactly, that is: exactly when the predicted value is greater than
    the threshold. *)
Theorem infer_data_thresholds (threshold : option Q) (m : Model) :
  let t := default default_threshold threshold in
  let t32 := round_float32 t in
  default_threshold = 1 # 2
  ∧ (∀ q, threshold = Some q → t = q)
  ∧ (threshold = None → t = 1 # 2 ∧ (t32 == t)%Q)
  ∧ (cuda_is_available = false →
     (∀ k, (k < 6)%nat → test_dataloader k ≠ []) →
     is_Some (infer_data threshold m))
  ∧ ∀ m' rows, infer_data threshold m = Some (m', rows) →
      length rows = 6%nat
      ∧ ∀ k r, rows !! k = Some r →
          ∃ img mask rest,
            test_dataloader k = (img, mask) :: rest
            ∧ row_img r = img
            ∧ row_mask r = mask
            ∧ row_pred r
              = pred_numpy (fst (net_forward (params (net m))
                                             (buffers_at_row m k) img))
            ∧ ∀ i j,
                match row_pred r !! i ≫= (.!! j) with
                | Some p =>
                    ∃ b, row_pred_bin r !! i ≫= (.!! j) = Some b
                         ∧ (b = true ↔ (t32 < p)%Q)
                         ∧ ((t32 == t)%Q → (b = true ↔ (t < p)%Q))
                | None => row_pred_bin r !! i ≫= (.!! j) = None
                end.
Proof.
  intros t t32.
  split_and!; [done | by intros q -> | | |].
  { intros ->. split; [done|]. unfold t32, t. simpl default.
    vm_compute. reflexivity. }
  { intros Hcpu Hloader. unfold infer_data. fold t.
    destruct (infer_rows t (seq 0 6) m) as [res|] eqn:Hrows; [by eexists|].
    apply (proj1 (infer_rows_spec t (seq 0 6) m)) in Hrows
      as (k & Hk%elem_of_seq & [Hempty|Hcuda]); [|congruence].
    destruct (Hloader k); [lia | done]. }
  intros m' rows Hinf. unfold infer_data in Hinf. fold t in Hinf.
  destruct (infer_rows_bin t _ _ _ _ Hinf) as [Hlen _].
  split; [done|].
  intros k r Hr.
  destruct (infer_rows_row t m 6 0 m m' rows eq_refl eq_refl Hinf k r Hr)
    as (img & mask & rest & Hk & Hi & Hm & Hpred & Hbin).
  exists img, mask, rest. split_and!; try done.
  intros i j. rewrite Hbin, binarize_lookup.
  destruct (row_pred r !! i ≫= (.!! j)) as [p|]; simpl; [|done].
  exists (gt_threshold p t). split_and!; [done | apply gt_threshold_spec |].
  intros Heq. rewrite gt_threshold_spec. fold t32. by rewrite Heq.
Qed.

(** ** Further properties of the training loop *)

Lemma counter_range w k :
  0 ≤ early_stopping_counter (after_epochs k (train_start w)) ≤ Z.of_nat k.
Proof.
  induction k as [|k IH]; [done|].
  rewrite after_epochs_S.
  set (lpk := after_epochs k (train_start w)) in *.
  destruct (loss_lt (avg_test_loss k (self (lw lpk))) (best_loss lpk)) eqn:H.
  - rewrite epoch_body_improved by done. simpl. lia.
  - rewrite epoch_body_stalled by done. simpl. lia.
Qed.

(** X1. The counter never exceeds the number of epochs run, so the
    loop is never left before [early_stopping_epochs] epochs have run
    (or all [num_epochs] of them, if that is fewer); a run that stops
    early has a threshold between 0 and the number of epochs it ran,
    and with a negative threshold, or one of at least [num_epochs],
    every epoch runs. *)
Theorem early_stopping_not_before_patience (w : World) :
  let n := Z.to_nat (num_epochs (self w)) in
  let patience := early_stopping_epochs (self w) in
  let N := epochs_trained w in
  (∀ k, 0 ≤ early_stopping_counter (after_epochs k (train_start w)) ≤ Z.of_nat k)
  ∧ (Z.to_nat patience `min` n ≤ N)%nat
  ∧ ((N < n)%nat → 0 ≤ patience ≤ Z.of_nat N)
  ∧ (patience < 0 ∨ Z.of_nat n ≤ patience → N = n).
Proof.
  intros n patience N.
  destruct (epochs_run_spec n 0%nat (train_start w)) as (Hle & _ & Hstop).
  change (N ≤ n)%nat in Hle.
  change ((N < n)%nat →
          early_stopping_counter (after_epochs N (train_start w)) = patience)
    in Hstop.
  assert (Hearly : (N < n)%nat → 0 ≤ patience ≤ Z.of_nat N).
  { intros HN. rewrite <- (Hstop HN). apply counter_range. }
  split_and!; [apply counter_range | | done |].
  - destruct (decide (N < n)%nat) as [HN|HN]; [|lia].
    specialize (Hearly HN). lia.
  - intros Hp. destruct (decide (N < n)%nat) as [HN|HN]; [|lia].
    specialize (Hearly HN). lia.
Qed.

(** X2. With [num_epochs] at most 0, or a threshold of 0, [train]
    runs no epoch at all: the object is left as it was, no checkpoint
    is written, and only the archives of the unchanged lists are saved
    (when [save_loss] is set). *)
Theorem train_without_epochs (w : World) :
  num_epochs (self w) ≤ 0 ∨ early_stopping_epochs (self w) = 0 →
  epochs_trained w = 0%nat
  ∧ train w = (if save_loss (self w) then save_loss_pkl w else w).
Proof.
  intros Hzero.
  assert (Hend : train_end w = train_start w ∧ epochs_trained w = 0%nat).
  { unfold train_end, epochs_trained.
    destruct Hzero as [Hn|Hp].
    - replace (Z.to_nat (num_epochs (self w))) with 0%nat by lia. done.
    - destruct (Z.to_nat (num_epochs (self w))) as [|n]; [done|].
      simpl. rewrite Hp. done. }
  destruct Hend as [Hend HN]. split; [done|].
  unfold train. rewrite Hend. simpl. by destruct w.
Qed.

(** The checkpoint is as old as the counter says. *)
Lemma checkpoint_lag w k :
  let lpk := after_epochs k (train_start w) in
  let c := early_stopping_counter lpk in
  (c < Z.of_nat k →
   disk (lw lpk) !! "./model.pt"
   = Some (state_dict (self (lw (after_epochs (k - Z.to_nat c) (train_start w)))))
   ∧ best_loss lpk = test_loss_at w (k - Z.to_nat c - 1))
  ∧ (c = Z.of_nat k →
     disk (lw lpk) !! "./model.pt" = disk w !! "./model.pt"
     ∧ best_loss lpk = loss_1e99).
Proof.
  induction k as [|k [IHlt IHeq]]; [split; [simpl; lia | by intros _]|].
  pose proof (counter_range w k) as Hc.
  cbv zeta. rewrite after_epochs_S.
  set (lpk := after_epochs k (train_start w)) in *.
  destruct (loss_lt (avg_test_loss k (self (lw lpk))) (best_loss lpk)) eqn:H.
  - rewrite epoch_body_improved by done. simpl.
    split; [intros _ | lia].
    rewrite lookup_insert_eq.
    replace (k - 0)%nat with k by lia.
    split; [|done]. do 2 f_equal.
    rewrite after_epochs_S, epoch_body_self. done.
  - rewrite epoch_body_stalled by done. simpl.
    split.
    + intros Hlt. destruct IHlt as [Hd Hb]; [lia|].
      replace (S k - Z.to_nat (early_stopping_counter lpk + 1))%nat
        with (k - Z.to_nat (early_stopping_counter lpk))%nat by lia.
      done.
    + intros Heq. apply IHeq. lia.
Qed.

(** X3. After [train], the checkpoint is the network as it was
    [early_stopping_counter] epochs before the last one run, and the
    best loss is the average test loss of that epoch; when the counter
    equals the number of epochs run, no epoch improved and [train] has
    not written [./model.pt]. In particular a run that ends with the
    counter at 0 leaves on disk the very network held in memory. *)
Theorem checkpoint_lags_by_counter (w : World) :
  let N := epochs_trained w in
  let c := early_stopping_counter (train_end w) in
  0 ≤ c ≤ Z.of_nat N
  ∧ (c < Z.of_nat N →
     disk (train w) !! "./model.pt"
     = Some (state_dict (self (lw (after_epochs (N - Z.to_nat c) (train_start w)))))
     ∧ best_loss (train_end w) = test_loss_at w (N - Z.to_nat c - 1))
  ∧ (c = Z.of_nat N →
     disk (train w) !! "./model.pt" = disk w !! "./model.pt"
     ∧ best_loss (train_end w) = loss_1e99)
  ∧ (c = 0 → (0 < N)%nat →
     disk (train w) !! "./model.pt" = Some (state_dict (self (train w)))).
Proof.
  intros N c. unfold c. rewrite train_disk_checkpoint, train_end_after. fold N.
  destruct (checkpoint_lag w N) as [Hlt Heq].
  split_and!; [apply counter_range.. | exact Hlt | exact Heq |].
  intros H0 HN. destruct Hlt as [Hd _]; [lia|].
  rewrite Hd, H0, train_self, train_end_after. fold N.
  by replace (N - Z.to_nat 0)%nat with N by lia.
Qed.

Lemma after_epochs_test_loss w k :
  test_loss (self (lw (after_epochs k (train_start w))))
  = test_loss (self w) ++ map (test_loss_at w) (seq 0 k).
Proof.
  induction k as [|k IH]; [by rewrite app_nil_r|].
  rewrite after_epochs_S, epoch_body_self.
  destruct (epoch_model_spec k (self (lw (after_epochs k (train_start w)))))
    as (_ & _ & -> & _).
  by rewrite IH, seq_S, map_app, app_assoc.
Qed.

Lemma train_test_loss w :
  test_loss (self (train w))
  = test_loss (self w) ++ map (test_loss_at w) (seq 0 (epochs_trained w)).
Proof. rewrite train_self, train_end_after. apply after_epochs_test_loss. Qed.

Lemma avg_test_loss_empty e m :
  test_dataloader e = [] → avg_test_loss e m = np_mean [].
Proof.
  intros He. unfold avg_test_loss, after_test_pass, test_pass.
  rewrite He. done.
Qed.

(** X4. When the test loader yields no batch and the mean of no loss
    compares below nothing (as nan does), every epoch counts as one
    without improvement: the counter equals the number of epochs run,
    [train] never writes [./model.pt], it stops after exactly
    [early_stopping_epochs] epochs (or [num_epochs], if fewer), and it
    appends that same mean to [test_loss] once per epoch. *)
Theorem empty_test_loader_never_checkpoints (w : World) :
  (∀ e, test_dataloader e = []) →
  (∀ x, loss_lt (np_mean []) x = false) →
  let n := Z.to_nat (num_epochs (self w)) in
  let patience := early_stopping_epochs (self w) in
  let N := epochs_trained w in
  (∀ k, early_stopping_counter (after_epochs k (train_start w)) = Z.of_nat k)
  ∧ disk (train w) !! "./model.pt" = disk w !! "./model.pt"
  ∧ (0 ≤ patience → N = (n `min` Z.to_nat patience)%nat)
  ∧ test_loss (self (train w)) = test_loss (self w) ++ replicate N (np_mean []).
Proof.
  intros Hempty Hnan n patience N.
  assert (Hat : ∀ k, test_loss_at w k = np_mean []).
  { intros k. unfold test_loss_at. by apply avg_test_loss_empty. }
  assert (Hcount : ∀ k,
            early_stopping_counter (after_epochs k (train_start w)) = Z.of_nat k).
  { induction k as [|k IH]; [done|].
    rewrite after_epochs_S, epoch_body_stalled.
    - simpl. rewrite IH. lia.
    - rewrite avg_test_loss_empty by done. apply Hnan. }
  destruct (epochs_run_spec n 0%nat (train_start w)) as (Hle & Hlt & Hstop).
  change (N ≤ n)%nat in Hle.
  change (∀ k, (k < N)%nat →
            early_stopping_counter (after_epochs k (train_start w)) ≠ patience)
    in Hlt.
  change ((N < n)%nat →
          early_stopping_counter (after_epochs N (train_start w)) = patience)
    in Hstop.
  split_and!; [done | | |].
  - rewrite train_disk_checkpoint, train_end_after.
    destruct (checkpoint_lag w (epochs_trained w)) as [_ Heq].
    apply Heq, Hcount.
  - intros Hp.
    assert (N ≤ Z.to_nat patience)%nat.
    { destruct (decide (N ≤ Z.to_nat patience)%nat) as [|Hgt]; [done|].
      exfalso. apply (Hlt (Z.to_nat patience)); [lia|].
      rewrite Hcount. lia. }
    destruct (decide (N < n)%nat) as [HN|HN]; [|lia].
    specialize (Hstop HN). rewrite Hcount in Hstop. lia.
  - rewrite train_test_loss. f_equal.
    assert (Hrep : ∀ j s, map (test_loss_at w) (seq s j) = replicate j (np_mean [])).
    { induction j as [|j IH]; intros s; simpl; [done|]. by rewrite Hat, IH. }
    apply Hrep.
Qed.

Lemma py_min_snoc x xs y :
  py_min ((x :: xs) ++ [y])
  = (λ best, if loss_lt y best then y else best) <$> py_min (x :: xs).
Proof. simpl. by rewrite fold_left_app. Qed.

Lemma best_loss_is_py_min w k :
  loss_lt (test_loss_at w 0) loss_1e99 = true →
  py_min (map (test_loss_at w) (seq 0 (S k)))
  = Some (best_loss (after_epochs (S k) (train_start w))).
Proof.
  intros H0. induction k as [|k IH].
  - rewrite best_loss_step. simpl.
    change (best_loss (after_epochs 0 (train_start w))) with loss_1e99.
    by rewrite H0.
  - rewrite seq_S, map_app. simpl map at 2.
    change (map (test_loss_at w) (seq 0 (S k)))
      with (test_loss_at w 0 :: map (test_loss_at w) (seq 1 k)) in *.
    rewrite py_min_snoc, IH. simpl. by rewrite (best_loss_step w (S k)).
Qed.

(** Once the first epoch has improved, the counter stays below the
    number of epochs run. *)
Lemma counter_below_after_first_improvement w k :
  loss_lt (test_loss_at w 0) loss_1e99 = true →
  (0 < k)%nat →
  early_stopping_counter (after_epochs k (train_start w)) < Z.of_nat k.
Proof.
  intros H0 Hk. destruct k as [|k]; [lia|]. clear Hk.
  induction k as [|k IHk].
  - rewrite after_epochs_S, epoch_body_improved; [simpl; lia | done].
  - rewrite after_epochs_S.
    set (lpk := after_epochs (S k) (train_start w)) in *.
    destruct (loss_lt (avg_test_loss (S k) (self (lw lpk))) (best_loss lpk)) eqn:H.
    + rewrite epoch_body_improved by done. simpl. lia.
    + rewrite epoch_body_stalled by done. simpl. lia.
Qed.

(** X5. After a run of at least one epoch from empty lists whose
    first average test loss is below [1e99], the minimum of the stored
    [test_loss] list, as [min] computes it, is the best loss the loop
    ended with, that is, the loss of the epoch whose weights the
    checkpoint holds. *)
Theorem min_test_loss_is_best_loss (w : World) :
  test_loss (self w) = [] →
  (0 < epochs_trained w)%nat →
  loss_lt (test_loss_at w 0) loss_1e99 = true →
  let N := epochs_trained w in
  let c := Z.to_nat (early_stopping_counter (train_end w)) in
  py_min (test_loss (self (train w))) = Some (best_loss (train_end w))
  ∧ (c < N)%nat
  ∧ best_loss (train_end w) = test_loss_at w (N - c - 1)
  ∧ disk (train w) !! "./model.pt"
    = Some (state_dict (self (lw (after_epochs (N - c) (train_start w))))).
Proof.
  intros Hnil HN H0 N c.
  assert (Hmin : py_min (test_loss (self (train w)))
                 = Some (best_loss (train_end w))).
  { rewrite train_test_loss, Hnil, train_end_after. simpl app.
    destruct (epochs_trained w) as [|k]; [lia|].
    by apply best_loss_is_py_min. }
  pose proof (counter_range w N) as Hc.
  destruct (checkpoint_lag w N) as [Hlt Heq].
  assert (Hcn : early_stopping_counter (train_end w) < Z.of_nat N).
  { rewrite train_end_after. by apply counter_below_after_first_improvement. }
  rewrite train_end_after in Hcn. fold N in Hcn.
  destruct (Hlt Hcn) as [Hd Hb].
  split_and!; [done | unfold c; rewrite train_end_after; fold N; lia | |].
  - unfold c. rewrite train_end_after. exact Hb.
  - unfold c. rewrite train_disk_checkpoint, train_end_after. exact Hd.
Qed.

(** ** The modes after a run *)

Lemma py_min_is_Some (l : list Loss) : (0 < length l)%nat → is_Some (py_min l).
Proof. destruct l; simpl; [lia | eauto]. Qed.

(** X6. When [train] has run all [num_epochs] (at least one) from
    empty lists with [save_loss] set, curve plotting in a later process
    on the same files and with the same [num_epochs] succeeds: it
    loads the lists as [train] left them and prints the minimum of
    [test_loss]. Without the train-loss archive it fails. *)
Theorem curves_mode_after_complete_run (w w2 : World) :
  train_loss (self w) = [] →
  test_loss (self w) = [] →
  save_loss (self w) = true →
  (∀ l, pickle_loads (pickle_dumps l) = Some l) →
  epochs_trained w = Z.to_nat (num_epochs (self w)) →
  0 < num_epochs (self w) →
  disk w2 = disk (train w) →
  num_epochs (self w2) = num_epochs (self w) →
  (∃ w3 lowest,
      curves_mode w2 = Some (w3, lowest)
      ∧ py_min (test_loss (self (train w))) = Some lowest
      ∧ train_loss (self w3) = train_loss (self (train w))
      ∧ test_loss (self w3) = test_loss (self (train w)))
  ∧ (∀ w0, disk w0 !! "train_loss.pkl" = None → curves_mode w0 = None).
Proof.
  intros Htr0 Hte0 Hsave Hpickle Hall Hpos Hd Hn. split.
  - destruct (train_lengths w) as [Htr Hte].
    rewrite Htr0 in Htr. rewrite Hte0 in Hte. simpl in Htr, Hte.
    assert (Hd' : disk w2 = disk (save_loss_pkl (lw (train_end w)))).
    { rewrite Hd. unfold train. by rewrite train_end_save_loss, Hsave. }
    destruct (load_saved_pkl Hpickle (lw (train_end w)) w2 Hd')
      as (w3 & Hw3 & Htr3 & Hte3 & Hn3).
    rewrite <- train_self in Htr3, Hte3.
    destruct (py_min_is_Some (test_loss (self (train w)))) as [lowest Hmin].
    { rewrite Hte, Hall. lia. }
    exists w3, lowest. split_and!; try done.
    unfold curves_mode. rewrite Hw3, Hte3, Hmin.
    assert (plot_curves (self w3) = Some tt) as ->; [|done].
    apply plot_curves_ok. rewrite Htr3, Hte3, Htr, Hte, Hn3, Hn. done.
  - intros w0 H0. unfold curves_mode, load_loss_pkl, read_pickle. by rewrite H0.
Qed.

(** X7. With CUDA available [infer_data] always raises: the network
    is on the device and the batch is not moved there. Without CUDA it
    raises exactly when one of the six fresh iterations over the test
    loader yields nothing. When it returns it has made six rows and has
    changed neither the parameters of the network nor its gradients,
    the optimizer, the settings or the stored losses. *)
Theorem infer_data_fails_on_cuda (threshold : option Q) (m : Model) :
  (cuda_is_available = true → infer_data threshold m = None)
  ∧ (cuda_is_available = false →
     (infer_data threshold m = None
      ↔ ∃ k, (k < 6)%nat ∧ test_dataloader k = []))
  ∧ ∀ m' rows, infer_data threshold m = Some (m', rows) →
      cuda_is_available = false
      ∧ length rows = 6%nat
      ∧ params (net m') = params (net m)
      ∧ grads (net m') = grads (net m)
      ∧ optimizer m' = optimizer m
      ∧ settings m' = settings m
      ∧ train_loss m' = train_loss m
      ∧ test_loss m' = test_loss m.
Proof.
  unfold infer_data.
  destruct (infer_rows_spec (default default_threshold threshold) (seq 0 6) m)
    as [Hnone Hsome].
  split_and!.
  - intros Hcuda. apply Hnone. exists 0%nat.
    split; [apply elem_of_seq; lia | by right].
  - intros Hcpu. rewrite Hnone.
    split; intros (k & Hk & He); exists k.
    + apply elem_of_seq in Hk. destruct He as [He|He]; [|congruence].
      split; [lia | done].
    + split; [apply elem_of_seq; lia | by left].
  - intros m' rows Hinf. split_and!; try by apply (Hsome m' rows).
    + destruct cuda_is_available eqn:Hcuda; [|done].
      assert (Hx : infer_rows (default default_threshold threshold) (seq 0 6) m = None).
      { apply Hnone. exists 0%nat. split; [apply elem_of_seq; lia | by right]. }
      congruence.
    + by destruct (infer_rows_bin _ _ _ _ _ Hinf) as [-> _].
Qed.

Lemma infer_data_rows_first threshold m m' rows :
  infer_data threshold m = Some (m', rows) →
  params (net m') = params (net m)
  ∧ length rows = 6%nat
  ∧ ∃ img mask rest r rows',
      test_dataloader 0 = (img, mask) :: rest
      ∧ rows = r :: rows'
      ∧ row_pred r
        = pred_numpy (fst (net_forward (params (net m)) (buffers (net m)) img)).
Proof.
  intros Hinf.
  assert (Hlen : length rows = 6%nat).
  { unfold infer_data in Hinf. by destruct (infer_rows_bin _ _ _ _ _ Hinf) as [-> _]. }
  split_and!; [|done|].
  - unfold infer_data in Hinf.
    destruct (infer_rows_spec (default default_threshold threshold) (seq 0 6) m)
      as [_ Hs].
    by destruct (Hs _ _ Hinf) as [-> _].
  - destruct rows as [|r rows']; [done|].
    unfold infer_data in Hinf.
    destruct (infer_rows_row (default default_threshold threshold) m 6 0 m m'
                (r :: rows') eq_refl eq_refl Hinf 0 r eq_refl)
      as (img & mask & rest & Hk & _ & _ & Hpred & _).
    by exists img, mask, rest, r, rows'.
Qed.

(** X8. Inference in a later process uses the best weights, not the
    last ones: after a run of at least one epoch whose first average
    test loss is below [1e99], [load_model] on the files [train] left
    succeeds and puts into the network the parameters and buffers of
    the epoch [early_stopping_counter] epochs before the end of the
    run; [infer_data] then keeps those parameters and computes its
    first prediction with them. Without [./model.pt], inference
    fails. *)
Theorem infer_mode_uses_checkpoint (w w2 : World) :
  (0 < epochs_trained w)%nat →
  loss_lt (test_loss_at w 0) loss_1e99 = true →
  disk w2 = disk (train w) →
  let N := epochs_trained w in
  let c := Z.to_nat (early_stopping_counter (train_end w)) in
  let best := self (lw (after_epochs (N - c) (train_start w))) in
  (∃ w3, load_model w2 = Some w3
         ∧ params (net (self w3)) = params (net best)
         ∧ buffers (net (self w3)) = buffers (net best)
         ∧ settings (self w3) = settings (self w2)
         ∧ disk w3 = disk w2)
  ∧ (∀ w4 rows, infer_mode w2 = Some (w4, rows) →
       params (net (self w4)) = params (net best)
       ∧ length rows = 6%nat
       ∧ ∃ img mask rest r rows',
           test_dataloader 0 = (img, mask) :: rest
           ∧ rows = r :: rows'
           ∧ row_pred r
             = pred_numpy (fst (net_forward (params (net best))
                                            (buffers (net best)) img)))
  ∧ (∀ w0, disk w0 !! "./model.pt" = None → infer_mode w0 = None).
Proof.
  intros HN H0 Hd N c best.
  assert (Hck : disk w2 !! "./model.pt" = Some (state_dict best)).
  { rewrite Hd, train_disk_checkpoint, train_end_after.
    destruct (checkpoint_lag w (epochs_trained w)) as [Hlt _].
    destruct Hlt as [Hck _]; [by apply counter_below_after_first_improvement|].
    unfold best, c, N. by rewrite train_end_after. }
  assert (Hload : load_model w2
                  = Some (mkWorld (set_net (self w2)
                                     (mkNet (params (net best)) (buffers (net best))
                                            (grads (net (self w2))))
                                     (optimizer (self w2))) (disk w2))).
  { unfold load_model. by rewrite Hck. }
  split_and!.
  - eexists. split; [exact Hload|]. done.
  - intros w4 rows. unfold infer_mode. rewrite Hload. cbn [self disk].
    set (m3 := set_net _ _ _).
    destruct (infer_data None m3) as [[m4 rs]|] eqn:Hinf; [|done].
    intros [= <- <-]. cbn [self].
    destruct (infer_data_rows_first _ _ _ _ Hinf) as (Hp & Hlen & Hfirst).
    split_and!; done.
  - intros w0 Hno. unfold infer_mode, load_model. by rewrite Hno.
Qed.

(** ** Thresholding, splitting and saving *)

(** X9. The binary prediction has the shape of the prediction; a
    pixel whose value equals the threshold as rounded to float32 is not
    set; and raising the threshold never sets a pixel that was clear. *)
Theorem binarize_shape_and_monotone (t : Q) (pred : list (list Q)) :
  length (binarize t pred) = length pred
  ∧ (∀ i, length <$> (binarize t pred !! i) = length <$> (pred !! i))
  ∧ (∀ i j p, pred !! i ≫= (.!! j) = Some p → (p == round_float32 t)%Q →
       binarize t pred !! i ≫= (.!! j) = Some false)
  ∧ (∀ t' i j, (t <= t')%Q →
       binarize t' pred !! i ≫= (.!! j) = Some true →
       binarize t pred !! i ≫= (.!! j) = Some true).
Proof.
  split_and!.
  - unfold binarize. apply length_map.
  - intros i. unfold binarize.
    change (map (map (λ p, gt_threshold p t)) pred)
      with (fmap (M:=list) (fmap (M:=list) (λ p, gt_threshold p t)) pred).
    rewrite list_lookup_fmap. destruct (pred !! i); simpl; [|done].
    f_equal. apply length_fmap.
  - intros i j p Hp Heq. rewrite binarize_lookup, Hp. simpl. f_equal.
    apply not_true_iff_false. rewrite gt_threshold_spec. lra.
  - intros t' i j Hle. rewrite !binarize_lookup.
    destruct (pred !! i ≫= (.!! j)) as [p|]; simpl; [|done].
    intros [= Ht']. f_equal. apply gt_threshold_spec.
    apply gt_threshold_spec in Ht'.
    pose proof (round_float32_mono t t' Hle). lra.
Qed.

(** X10. The test part of the split is empty exactly for datasets
    of fewer than five files; it never holds more than a fifth of the
    indices, and the train part never fewer than four fifths. *)
Theorem test_part_empty_below_five (all_images : list string) (unet : Net)
    (adam : OptState) :
  (∀ seed l, length (np_random_shuffle seed l) = length l) →
  let n := length all_images in
  let m := Model_init all_images unet adam in
  (test_indices m = [] ↔ (n < 5)%nat)
  ∧ (5 * length (test_indices m) ≤ n)%nat
  ∧ (n < 5 * length (test_indices m) + 5)%nat
  ∧ (4 * n ≤ 5 * length (train_indices m))%nat.
Proof.
  intros Hlen n m.
  set (ix := np_random_shuffle 42 (seq 0 n)).
  assert (Hix : length ix = n).
  { unfold ix. rewrite Hlen. apply length_seq. }
  assert (Hsp : split_point n = (n / 5)%nat) by apply split_point_div5.
  pose proof (Nat.div_mod_eq n 5) as Hdm.
  pose proof (Nat.mod_upper_bound n 5 ltac:(lia)) as Hmod.
  assert (Hte : length (test_indices m) = (n / 5)%nat).
  { change (test_indices m) with (take (split_point n) ix).
    rewrite length_take, Hix, Hsp. lia. }
  assert (Htr : length (train_indices m) = (n - n / 5)%nat).
  { change (train_indices m) with (drop (split_point n) ix).
    rewrite length_drop, Hix, Hsp. done. }
  split_and!; [|lia..].
  rewrite <- length_zero_iff_nil, Hte. split; intros H; [lia|].
  apply Nat.div_small. lia.
Qed.

(** X11. Saving the losses twice is the same as saving them once;
    saving changes no file but the two archives, creates those two if
    they were missing, and leaves the object as it is. *)
Theorem save_loss_pkl_idempotent (w : World) :
  save_loss_pkl (save_loss_pkl w) = save_loss_pkl w
  ∧ self (save_loss_pkl w) = self w
  ∧ (∀ name, name ≠ "train_loss.pkl" → name ≠ "test_loss.pkl" →
             disk (save_loss_pkl w) !! name = disk w !! name)
  ∧ dom (disk (save_loss_pkl w))
    = {["train_loss.pkl"; "test_loss.pkl"]} ∪ dom (disk w).
Proof.
  split_and!.
  - unfold save_loss_pkl; simpl. f_equal. apply map_eq. intros name.
    destruct (decide (name = "test_loss.pkl")) as [->|H1].
    { by rewrite !lookup_insert_eq. }
    rewrite !(lookup_insert_ne _ "test_loss.pkl") by done.
    destruct (decide (name = "train_loss.pkl")) as [->|H2].
    { by rewrite !lookup_insert_eq. }
    by repeat (rewrite lookup_insert_ne by done).
  - done.
  - intros name H1 H2. unfold save_loss_pkl; simpl.
    by rewrite !lookup_insert_ne.
  - unfold save_loss_pkl; simpl. rewrite !dom_insert_L, (assoc_L (∪)).
    by rewrite (comm_L (∪) {["test_loss.pkl"]}).
Qed.

Lemma after_epochs_train_loss w k :
  ∃ new, train_loss (self (lw (after_epochs k (train_start w))))
         = train_loss (self w) ++ new
         ∧ length new = k.
Proof.
  induction k as [|k (new & IH & Hlen)]; [exists []; by rewrite app_nil_r|].
  rewrite after_epochs_S, epoch_body_self.
  destruct (epoch_model_spec k (self (lw (after_epochs k (train_start w)))))
    as (_ & -> & _).
  eexists (new ++ [_]). rewrite IH, app_assoc. split; [done|].
  rewrite length_app. simpl. lia.
Qed.

(** X17. [train] only ever appends to the loss history: the lists it
    finds (from an earlier call, or loaded from the archives) stay in
    front, unchanged, and what follows them is one entry per epoch run,
    for [test_loss] the average test losses of the epochs in order. *)
Theorem train_extends_loss_history (w : World) :
  let N := epochs_trained w in
  (∃ new, train_loss (self (train w)) = train_loss (self w) ++ new
          ∧ length new = N)
  ∧ test_loss (self (train w))
    = test_loss (self w) ++ map (test_loss_at w) (seq 0 N)
  ∧ train_loss (self w) `prefix_of` train_loss (self (train w))
  ∧ test_loss (self w) `prefix_of` test_loss (self (train w)).
Proof.
  intros N.
  assert (Htr : ∃ new, train_loss (self (train w)) = train_loss (self w) ++ new
                       ∧ length new = N).
  { rewrite train_self, train_end_after. apply after_epochs_train_loss. }
  split_and!; [done | apply train_test_loss | |].
  - destruct Htr as (new & -> & _). by apply prefix_app_r.
  - rewrite train_test_loss. by apply prefix_app_r.
Qed.

End Training.

(** ** A small instance of the framework

    A one-weight linear model over the integers, with data from the
    line [y = 3 x]. It is what the hypotheses of the theorems above are
    checked against on a concrete run. *)

Module Toy.

Definition forward (p b x : Z) : Z * Z := (p * x, b + 1).
Definition loss (y mask : Z) : Z := Z.abs (y - mask).
Definition backward (p b x mask g : Z) : Z := g + Z.sgn (p * x - mask) * x.
Definition zero_grad (g : Z) : Z := 0.
Definition step (o p g : Z) : Z * Z := (o + 1, p - g).
Definition mean (ls : list Z) : Z :=
  fold_right Z.add 0 ls / Z.of_nat (length ls).
Definition big : Z := 10 ^ 99.
Definition train_batches (e : nat) : list (Z * Z) := [(1, 3); (2, 6)].
Definition test_batches (e : nat) : list (Z * Z) := [(3, 9)].
Definition dumps (l : list Z) : list Z := l.
Definition loads (b : list Z) : option (list Z) := Some b.

(** [x[i], x[j] = x[j], x[i]] (nothing happens out of range, where
    the shuffle never goes). *)
Definition swap_items (x : list nat) (i j : nat) : list nat :=
  match x !! i, x !! j with
  | Some a, Some b => <[j := a]> (<[i := b]> x)
  | _, _ => x
  end.

(** The pass [np.random.shuffle] makes over a list:
    [for i in reversed(range(1, n)): j = random_interval(i); swap],
    with [draw i] what [random_interval(i)] returns at position [i]. *)
Fixpoint fisher_yates (draw : nat → nat) (i : nat) (x : list nat) : list nat :=
  match i with
  | O => x
  | S i' => fisher_yates draw i' (swap_items x i (draw i))
  end.

(** A linear congruential generator in place of the Mersenne Twister,
    reduced to the interval [0 .. i]. *)
Definition lcg (seed : Z) (i : nat) : nat :=
  Z.to_nat (((1103515245 * (seed + Z.of_nat i) + 12345) mod 2147483648)
            mod Z.of_nat (S i)).

Definition shuffle (seed : Z) (l : list nat) : list nat :=
  fisher_yates (lcg seed) (length l - 1) l.
(** A grid of float32 values; the last one is the float32 nearest
    to 0.1. *)
Definition numpy (y : Z) : list (list Q) :=
  [[y # 8; 1 # 2]; [3 # 4; 13421773 # 134217728]].

Definition unet : @Net Z Z Z := mkNet 0 0 0.

Definition files : list string :=
  ["a.png"; "b.png"; "c.png"; "d.png"; "e.png"; "f.png"; "g.png";
   "h.png"; "i.png"; "j.png"; "k.png"; "l.png"].

Definition model : @Model Z Z Z Z Z := Model_init shuffle files unet 0.

Definition world : @World Z Z Z Z Z (list Z) := mkWorld model ∅.

Definition run (w : @World Z Z Z Z Z (list Z)) : @World Z Z Z Z Z (list Z) :=
  train forward loss backward zero_grad step mean Z.ltb big
        train_batches test_batches dumps w.

Lemma swap_items_perm x i j : swap_items x i j ≡ₚ x.
Proof.
  unfold swap_items.
  destruct (x !! i) as [a|] eqn:Hi; [|done].
  destruct (x !! j) as [b|] eqn:Hj; [|done].
  by apply Permutation_insert_swap.
Qed.

Lemma fisher_yates_perm draw i : ∀ x, fisher_yates draw i x ≡ₚ x.
Proof.
  induction i as [|i IH]; intros x; simpl; [done|].
  rewrite IH. apply swap_items_perm.
Qed.

Lemma shuffle_perm seed l : shuffle seed l ≡ₚ l.
Proof. apply fisher_yates_perm. Qed.

Example shuffle_42 : shuffle 42 (seq 0 12) = [3; 7; 10; 9; 8; 0; 5; 11; 1; 2; 4; 6]%nat.
Proof. vm_compute. reflexivity. Qed.

Lemma ltb_order : StrictWeakOrder Z.ltb.
Proof.
  split.
  - intros a. apply Z.ltb_irrefl.
  - intros a b c. rewrite !Z.ltb_lt. lia.
  - intros a b c. rewrite !Z.ltb_ge. lia.
Qed.

Lemma loads_dumps (l : list Z) : loads (dumps l) = Some l.
Proof. reflexivity. Qed.

(** The toy run: one improving epoch, ten stalled ones, then the
    loop is left. *)
Example run_stops_early :
  epochs_trained forward loss backward zero_grad step mean Z.ltb big
                 train_batches test_batches world = 11%nat
  ∧ test_loss (self (run world)) = [0; 0; 0; 0; 0; 0; 0; 0; 0; 0; 0]
  ∧ train_loss (self (run world)) = [3; 0; 0; 0; 0; 0; 0; 0; 0; 0; 0]
  ∧ disk (run world) !! "./model.pt" = Some (FStateDict 3 3).
Proof. vm_compute. done. Qed.

(** The split of the twelve toy files: ten train indices, two test
    indices, no index twice. *)
Lemma split_is_partition_witness :
  length (test_indices model) = 2%nat
  ∧ length (train_indices model) = 10%nat
  ∧ NoDup (train_indices model ++ test_indices model).
Proof.
  pose proof (split_is_partition forward loss backward zero_grad step mean
                Z.ltb big train_batches test_batches dumps shuffle
                files unet 0 shuffle_perm) as H.
  cbv zeta in H.
  destruct H as (_ & Hnd & _ & _ & _ & Hte & Htr & _).
  split_and!; [exact Hte | | exact Hnd].
  unfold model. rewrite Htr, Hte. reflexivity.
Defined.

(** The checkpoint of the toy run is that of an epoch no other epoch
    of the run is strictly below. *)
Lemma checkpoint_iff_improvement_witness :
  ∃ b, (b < 11)%nat
       ∧ disk (run world) !! "./model.pt"
         = Some (state_dict
                   (self (lw (after_epochs forward loss backward zero_grad
                                step mean Z.ltb train_batches test_batches
                                (S b) (train_start big world))))).
Proof.
  pose proof (checkpoint_iff_improvement forward loss backward zero_grad step
                mean Z.ltb big train_batches test_batches dumps world
                ltb_order) as H.
  cbv zeta in H.
  destruct H as (_ & Hbest & _).
  - intros k Hk. change (k < 11)%nat in Hk.
    do 11 (destruct k as [|k]; [vm_compute; reflexivity|]). lia.
  - destruct Hbest as (b & Hb & Hd & _).
    + vm_compute. lia.
    + exists b. split; [exact Hb | exact Hd].
Defined.

(** Saving and loading the toy run's lists gives them back. *)
Lemma loss_pkl_roundtrip_witness :
  ∃ w', load_loss_pkl loads (save_loss_pkl dumps (run world)) = Some w'
        ∧ train_loss (self w') = train_loss (self (run world))
        ∧ test_loss (self w') = test_loss (self (run world)).
Proof.
  exact (proj1 (loss_pkl_roundtrip dumps loads (run world) loads_dumps)).
Defined.

(** The toy run stops after 11 of 50 epochs, and its curves do not
    plot. *)
Lemma plot_curves_fails_after_early_stop_witness :
  plot_curves (self (run world)) = None.
Proof.
  pose proof (plot_curves_fails_after_early_stop forward loss backward
                zero_grad step mean Z.ltb big train_batches test_batches
                dumps loads world) as H.
  destruct H as (_ & _ & _ & _ & _ & Hplot & _).
  - reflexivity.
  - reflexivity.
  - vm_compute. lia.
  - exact Hplot.
Defined.

(** The double nearest to 0.1, and the float32 nearest to it. *)
Definition double_0_1 : Q := 3602879701896397 # 36028797018963968.
Definition float32_0_1 : Q := 13421773 # 134217728.

(** C6 as stated fails: the last pixel of the toy prediction is
    greater than the threshold 0.1 and is not set, for float32 holds
    that threshold as the value of the pixel. *)
Lemma threshold_is_compared_in_float32 :
  (double_0_1 < float32_0_1)%Q
  ∧ (λ r, (row_pred <$> head r.2, row_pred_bin <$> head r.2))
      <$> infer_data forward test_batches numpy false (Some double_0_1) model
    = Some (Some [[0 # 8; 1 # 2]; [3 # 4; float32_0_1]],
            Some [[false; true]; [true; false]]).
Proof. split; [reflexivity | vm_compute; reflexivity]. Qed.

(** Inference on the toy model with the default threshold: six rows,
    the first with the prediction for the first test batch. *)
Lemma infer_data_thresholds_witness :
  ∃ m' rows r,
    infer_data forward test_batches numpy false None model = Some (m', rows)
    ∧ length rows = 6%nat
    ∧ rows !! 0%nat = Some r
    ∧ row_pred r = numpy (fst (forward 0 0 3)).
Proof.
  pose proof (infer_data_thresholds forward test_batches numpy false None
                model) as H.
  cbv zeta in H. destruct H as (_ & _ & _ & Hreturns & Hrows).
  destruct Hreturns as [[m' rows] Hinf]; [reflexivity | discriminate |].
  destruct (Hrows m' rows Hinf) as [Hlen Hrow].
  destruct rows as [|r rows]; [discriminate Hlen|].
  destruct (Hrow 0%nat r eq_refl) as (img & mask & rest & Hk & _ & _ & Hpred & _).
  exists m', (r :: rows), r. split_and!; [exact Hinf | exact Hlen | reflexivity |].
  rewrite Hpred. injection Hk as <- _ _. reflexivity.
Defined.

(** *** Further runs of the toy model *)

(** A model whose threshold is 0, and one with three epochs only. *)
Definition impatient_world : @World Z Z Z Z Z (list Z) :=
  mkWorld (mkModel 50 32 (1 # 1000) 0 unet 0 [] [] true files [] []) ∅.

Definition short_world : @World Z Z Z Z Z (list Z) :=
  mkWorld (mkModel 3 32 (1 # 1000) 10 unet 0 [] [] true files [] []) ∅.

(** Losses that may be nan, and a test loader that yields nothing. *)
Definition nan_loss (y mask : Z) : option Z := Some (Z.abs (y - mask)).

Definition nan_mean (ls : list (option Z)) : option Z :=
  match ls with
  | [] => None
  | _ =>
      (λ total, total / Z.of_nat (length ls))
        <$> foldr (λ l acc, a ← l; b ← acc; Some (a + b)) (Some 0) ls
  end.

Definition nan_lt (a b : option Z) : bool :=
  match a, b with
  | Some x, Some y => x <? y
  | _, _ => false
  end.

Definition no_batches (e : nat) : list (Z * Z) := [].

Definition nan_dumps (l : list (option Z)) : list (option Z) := l.

Definition nan_world : @World Z Z Z Z (option Z) (list (option Z)) :=
  mkWorld (Model_init shuffle files unet 0) ∅.

Lemma train_without_epochs_witness :
  epochs_trained forward loss backward zero_grad step mean Z.ltb big
                 train_batches test_batches impatient_world = 0%nat.
Proof.
  exact (proj1 (train_without_epochs forward loss backward zero_grad step mean
                  Z.ltb big train_batches test_batches dumps impatient_world
                  (or_intror eq_refl))).
Defined.

(** With no test batch, the run stops after ten epochs and leaves no
    checkpoint. *)
Lemma empty_test_loader_never_checkpoints_witness :
  epochs_trained forward nan_loss backward zero_grad step nan_mean nan_lt
                 (Some big) train_batches no_batches nan_world = 10%nat
  ∧ disk (train forward nan_loss backward zero_grad step nan_mean nan_lt
                (Some big) train_batches no_batches nan_dumps nan_world)
         !! "./model.pt" = None.
Proof.
  pose proof (empty_test_loader_never_checkpoints forward nan_loss backward
                zero_grad step nan_mean nan_lt (Some big) train_batches
                no_batches nan_dumps nan_world) as H.
  destruct H as (_ & Hd & HN & _).
  - intros e. reflexivity.
  - intros x. reflexivity.
  - split; [apply HN; simpl; lia | exact Hd].
Defined.

Lemma min_test_loss_is_best_loss_witness :
  py_min Z.ltb (test_loss (self (run world)))
  = Some (best_loss (train_end forward loss backward zero_grad step mean
                       Z.ltb big train_batches test_batches world)).
Proof.
  pose proof (min_test_loss_is_best_loss forward loss backward zero_grad step
                mean Z.ltb big train_batches test_batches dumps world) as H.
  destruct H as (Hmin & _).
  - reflexivity.
  - vm_compute. lia.
  - vm_compute. reflexivity.
  - exact Hmin.
Defined.

(** Three epochs out of three: the curves plot in the next process. *)
Lemma curves_mode_after_complete_run_witness :
  ∃ w3 lowest,
    curves_mode Z.ltb loads (mkWorld (self short_world) (disk (run short_world)))
    = Some (w3, lowest).
Proof.
  pose proof (curves_mode_after_complete_run forward loss backward zero_grad
                step mean Z.ltb big train_batches test_batches dumps loads
                short_world
                (mkWorld (self short_world) (disk (run short_world)))) as H.
  destruct H as ((w3 & lowest & Hc & _) & _).
  - reflexivity.
  - reflexivity.
  - reflexivity.
  - exact loads_dumps.
  - vm_compute. reflexivity.
  - simpl. lia.
  - vm_compute. reflexivity.
  - reflexivity.
  - exists w3, lowest. exact Hc.
Defined.

(** A fresh model on the files of the toy run loads its checkpoint. *)
Lemma infer_mode_uses_checkpoint_witness :
  ∃ w3, load_model (mkWorld model (disk (run world))) = Some w3.
Proof.
  pose proof (infer_mode_uses_checkpoint forward loss backward zero_grad step
                mean Z.ltb big train_batches test_batches dumps numpy false
                world (mkWorld model (disk (run world)))) as H.
  destruct H as ((w3 & Hload & _) & _).
  - vm_compute. lia.
  - vm_compute. reflexivity.
  - vm_compute. reflexivity.
  - exists w3. exact Hload.
Defined.

Lemma test_part_empty_below_five_witness :
  (5 * length (test_indices model) ≤ 12)%nat.
Proof.
  pose proof (test_part_empty_below_five (Loss:=Z) shuffle files unet 0) as H.
  destruct H as (_ & Hle & _).
  - intros seed l. apply Permutation_length, shuffle_perm.
  - exact Hle.
Defined.

Example toy_curves_print_lowest :
  snd <$> curves_mode Z.ltb loads (mkWorld (self short_world) (disk (run short_world)))
  = Some 0.
Proof. vm_compute. reflexivity. Qed.

Example toy_infer_first_pixel :
  (λ r, row_pred_bin <$> head r.2)
    <$> infer_mode forward test_batches numpy false (mkWorld model (disk (run world)))
  = Some (Some [[true; false]; [true; false]]).
Proof. vm_compute. reflexivity. Qed.

End Toy.

(** ** The command line *)

Module CLI.

Local Open Scope string_scope.

(** The [Namespace] that [parse_args] returns. *)
Record Namespace := mkNamespace {
  train : bool;
  infer : bool;
  curves : bool
}.

(** What an option string stands for: one of the three [store_true]
    flags, or the help option every parser has. *)
Inductive Action := ATrain | AInfer | ACurves | AHelp.

Definition long_options : list (string * Action) :=
  [("--help", AHelp); ("--train", ATrain); ("--infer", AInfer);
   ("--curves", ACurves)].

(** The action of one token: an option string in full, or a prefix of
    one long option string and of no other. [None]: the parser reports
    an error. *)
Definition resolve (tok : string) : option Action :=
  if bool_decide (tok = "-h") then Some AHelp
  else
    match filter (λ oa, oa.1 = tok) long_options with
    | (_, a) :: _ => Some a
    | [] =>
        if (3 <=? String.length tok)%nat then
          match filter (λ oa, String.prefix tok oa.1 = true) long_options with
          | [(_, a)] => Some a
          | _ => None
          end
        else None
    end.

(** [None]: the parser leaves the program (help, or a usage error). *)
Fixpoint parse_tokens (argv : list string) (ns : Namespace)
    : option Namespace :=
  match argv with
  | [] => Some ns
  | tok :: rest =>
      match resolve tok with
      | Some ATrain => parse_tokens rest (mkNamespace true (infer ns) (curves ns))
      | Some AInfer => parse_tokens rest (mkNamespace (train ns) true (curves ns))
      | Some ACurves => parse_tokens rest (mkNamespace (train ns) (infer ns) true)
      | Some AHelp => None
      | None => None
      end
  end.

Definition parse_args (argv : list string) : option Namespace :=
  parse_tokens argv (mkNamespace false false false).

(** The methods of [Model] the script calls. *)
Inductive Call :=
| CallInit
| CallTrain
| CallLoadModel
| CallInferData
| CallLoadLossPkl
| CallPrintMinTestLoss
| CallPlotCurves.

Inductive Mode := Training | Inference | Curves.

(** The [if] / [elif] chain below [model = Model()]. *)
Definition dispatch (args : Namespace) : list Call :=
  if train args then [CallTrain]
  else if infer args then [CallLoadModel; CallInferData]
  else if curves args then [CallLoadLossPkl; CallPrintMinTestLoss; CallPlotCurves]
  else [].

Definition main (argv : list string) : option (list Call) :=
  match parse_args argv with
  | None => None
  | Some args => Some (CallInit :: dispatch args)
  end.

Definition mode_of (c : Call) : option Mode :=
  match c with
  | CallTrain => Some Training
  | CallInferData => Some Inference
  | CallPlotCurves => Some Curves
  | _ => None
  end.

(** The modes a sequence of calls runs. *)
Definition modes_run (calls : list Call) : list Mode := omap mode_of calls.

Definition flags : list string := ["--train"; "--infer"; "--curves"].

Example main_train : main ["--train"] = Some [CallInit; CallTrain].
Proof. reflexivity. Qed.

Example main_abbreviation : main ["--cur"] =
  Some [CallInit; CallLoadLossPkl; CallPrintMinTestLoss; CallPlotCurves].
Proof. reflexivity. Qed.

Example main_none : main [] = Some [CallInit].
Proof. reflexivity. Qed.

Example main_help : main ["--train"; "-h"] = None.
Proof. reflexivity. Qed.

Example main_unknown : main ["--train=1"] = None ∧ main ["x"] = None.
Proof. done. Qed.

Lemma dispatch_at_most_one (args : Namespace) :
  (length (modes_run (dispatch args)) ≤ 1)%nat.
Proof. destruct args as [[] [] []]; simpl; lia. Qed.

Lemma main_at_most_one (argv : list string) (calls : list Call) :
  main argv = Some calls → (length (modes_run calls) ≤ 1)%nat.
Proof.
  unfold main. destruct (parse_args argv) as [args|]; [|done].
  intros [= <-]. apply (dispatch_at_most_one args).
Qed.

(** Each flag given in full sets its own attribute and no other. *)
Lemma parse_tokens_flags (argv : list string) :
  ∀ ns, Forall (λ tok, tok ∈ flags) argv →
    parse_tokens argv ns
    = Some (mkNamespace (train ns || bool_decide ("--train" ∈ argv))
                        (infer ns || bool_decide ("--infer" ∈ argv))
                        (curves ns || bool_decide ("--curves" ∈ argv))).
Proof.
  induction argv as [|tok rest IH]; intros ns Hall.
  { assert (Hnil : ∀ f : string, bool_decide (f ∈ @nil string) = false).
    { intros f. apply bool_decide_eq_false_2, not_elem_of_nil. }
    cbn [parse_tokens]. rewrite !Hnil, !orb_false_r. by destruct ns. }
  apply Forall_cons in Hall as [Htok Hrest].
  assert (Hmem : ∀ f, bool_decide (f ∈ tok :: rest)
                      = bool_decide (f = tok) || bool_decide (f ∈ rest)).
  { intros f. rewrite <- bool_decide_or. apply bool_decide_ext, elem_of_cons. }
  unfold flags in Htok.
  repeat (apply elem_of_cons in Htok as [->|Htok]);
    [| | | by apply elem_of_nil in Htok];
    simpl; rewrite (IH _ Hrest); simpl; rewrite !Hmem; simpl;
    f_equal; f_equal;
    rewrite ?orb_true_r, ?orb_true_l, ?orb_false_l; reflexivity.
Qed.

(** C4 as stated fails: two of the flags together are accepted, both
    attributes are set, and training runs. *)
Lemma two_flags_are_accepted :
  parse_args ["--infer"; "--train"] = Some (mkNamespace true true false)
  ∧ main ["--infer"; "--train"] = Some [CallInit; CallTrain]
  ∧ main ["--train"; "--infer"; "--curves"] = Some [CallInit; CallTrain].
Proof. done. Qed.

(** C4, amended. The three flags are independent switches. An
    invocation made of them, in any number and order, is accepted; it
    runs training if [--train] is among them, else inference if
    [--infer] is, else curve plotting if [--curves] is, and no mode
    when none is given. No invocation runs more than one mode. *)
Theorem flags_select_by_priority (argv : list string) :
  Forall (λ tok, tok ∈ flags) argv →
  let args := mkNamespace (bool_decide ("--train" ∈ argv))
                          (bool_decide ("--infer" ∈ argv))
                          (bool_decide ("--curves" ∈ argv)) in
  parse_args argv = Some args
  ∧ main argv = Some (CallInit :: dispatch args)
  ∧ modes_run (CallInit :: dispatch args)
    = (if bool_decide ("--train" ∈ argv) then [Training]
       else if bool_decide ("--infer" ∈ argv) then [Inference]
       else if bool_decide ("--curves" ∈ argv) then [Curves]
       else [])
  ∧ (∀ argv' calls, main argv' = Some calls →
       (length (modes_run calls) ≤ 1)%nat).
Proof.
  intros Hall args.
  assert (Hparse : parse_args argv = Some args).
  { unfold parse_args. by rewrite parse_tokens_flags. }
  split_and!; [done | by unfold main; rewrite Hparse | | apply main_at_most_one].
  unfold args, dispatch; simpl.
  by repeat destruct (bool_decide _).
Qed.

Lemma flags_select_by_priority_witness :
  main ["--curves"; "--infer"; "--curves"]
  = Some [CallInit; CallLoadModel; CallInferData].
Proof.
  destruct (flags_select_by_priority ["--curves"; "--infer"; "--curves"])
    as (_ & Hmain & _).
  - repeat constructor; unfold flags; set_solver.
  - exact Hmain.
Defined.

(** ** Rejection and order of the flags *)

Global Instance Action_eq_dec : EqDecision Action.
Proof. solve_decision. Defined.

(** A token the parser takes as one of the three switches. *)
Definition is_switch (tok : string) : Prop :=
  resolve tok = Some ATrain ∨ resolve tok = Some AInfer
  ∨ resolve tok = Some ACurves.

Global Instance is_switch_dec tok : Decision (is_switch tok).
Proof. unfold is_switch. apply _. Defined.

Lemma parse_tokens_spec (argv : list string) :
  ∀ ns,
    (Forall is_switch argv →
     parse_tokens argv ns
     = Some (mkNamespace
               (train ns || bool_decide (Exists (λ t, resolve t = Some ATrain) argv))
               (infer ns || bool_decide (Exists (λ t, resolve t = Some AInfer) argv))
               (curves ns || bool_decide (Exists (λ t, resolve t = Some ACurves) argv))))
    ∧ (¬ Forall is_switch argv → parse_tokens argv ns = None).
Proof.
  induction argv as [|tok rest IH]; intros ns.
  { split; [intros _ | intros H; by destruct H].
    assert (Hnil : ∀ a, bool_decide (Exists (λ t, resolve t = Some a) []) = false).
    { intros a. apply bool_decide_eq_false_2. by intros H%Exists_nil. }
    cbn [parse_tokens]. rewrite !Hnil, !orb_false_r. by destruct ns. }
  assert (Hex : ∀ a, bool_decide (Exists (λ t, resolve t = Some a) (tok :: rest))
                     = bool_decide (resolve tok = Some a)
                       || bool_decide (Exists (λ t, resolve t = Some a) rest)).
  { intros a. rewrite <- bool_decide_or. apply bool_decide_ext, Exists_cons. }
  split.
  - intros [Htok Hrest]%Forall_cons. cbn [parse_tokens].
    destruct Htok as [Ht|[Ht|Ht]]; rewrite Ht;
      destruct (IH (mkNamespace
                      (train ns || bool_decide (resolve tok = Some ATrain))
                      (infer ns || bool_decide (resolve tok = Some AInfer))
                      (curves ns || bool_decide (resolve tok = Some ACurves))))
        as [IHok _];
      specialize (IHok Hrest); rewrite Ht in IHok; simpl in IHok;
      rewrite ?orb_true_r, ?orb_false_r in IHok;
      rewrite IHok, !Hex, Ht; simpl;
      rewrite ?orb_true_r, ?orb_true_l, ?orb_false_l; reflexivity.
  - intros Hnot. cbn [parse_tokens].
    destruct (resolve tok) as [[]|] eqn:Ht; try done;
      (destruct (IH (mkNamespace
                       (train ns || bool_decide (resolve tok = Some ATrain))
                       (infer ns || bool_decide (resolve tok = Some AInfer))
                       (curves ns || bool_decide (resolve tok = Some ACurves))))
         as [_ IHno];
       rewrite Ht in IHno; simpl in IHno;
       rewrite ?orb_true_r, ?orb_false_r in IHno;
       apply IHno; intros Hrest; apply Hnot; apply Forall_cons;
       split; [unfold is_switch; rewrite Ht; auto | done]).
Qed.

(** X15. The script stops in the parser exactly when some token of
    the command line is not one of the three switches: a token that
    asks for help, or one that the parser does not know. *)
Theorem main_rejects_iff (argv : list string) :
  main argv = None
  ↔ ∃ tok, tok ∈ argv ∧ (resolve tok = Some AHelp ∨ resolve tok = None).
Proof.
  unfold main, parse_args.
  destruct (parse_tokens_spec argv (mkNamespace false false false)) as [Hok Hno].
  destruct (decide (Forall is_switch argv)) as [Hall|Hnot].
  - rewrite (Hok Hall). split; [done|].
    intros (tok & Hin & Hbad). rewrite Forall_forall in Hall.
    destruct (Hall tok Hin) as [H|[H|H]]; destruct Hbad; congruence.
  - rewrite (Hno Hnot). split; [|done]. intros _.
    apply not_Forall_Exists in Hnot; [|apply _].
    apply Exists_exists in Hnot as (tok & Hin & Hbad). exists tok. split; [done|].
    unfold compose, is_switch in Hbad.
    destruct (resolve tok) as [[]|]; auto; exfalso; apply Hbad; auto.
Qed.

(** X16. The order of the tokens and their repetition do not matter:
    command lines that are permutations of each other do the same, and
    so does a command line written twice in a row. *)
Theorem main_ignores_order_and_repetition (argv : list string) :
  (∀ argv', argv ≡ₚ argv' → main argv = main argv')
  ∧ main (argv ++ argv) = main argv.
Proof.
  assert (Hmain : ∀ l l',
            (Forall is_switch l ↔ Forall is_switch l') →
            (∀ a, Exists (λ t, resolve t = Some a) l
                  ↔ Exists (λ t, resolve t = Some a) l') →
            main l = main l').
  { intros l l' Hall Hex. unfold main, parse_args.
    destruct (parse_tokens_spec l (mkNamespace false false false)) as [Hok Hno].
    destruct (parse_tokens_spec l' (mkNamespace false false false)) as [Hok' Hno'].
    destruct (decide (Forall is_switch l)) as [H|H].
    - rewrite (Hok H), (Hok' (proj1 Hall H)). simpl.
      by rewrite !(bool_decide_ext _ _ (Hex _)).
    - rewrite (Hno H), Hno'; [done|]. intros H'. apply H, Hall, H'. }
  split.
  - intros argv' Hperm. apply Hmain.
    + by rewrite Hperm.
    + intros a. by rewrite Hperm.
  - apply Hmain.
    + rewrite Forall_app. tauto.
    + intros a. rewrite Exists_app. tauto.
Qed.

End CLI.
